(** * GameHub: a shallow embedding of the Go service and its checked properties

    The service is a small HTTP facade over the RAWG game database.  This
    development embeds, from the Go sources,

    - the upstream client of [rawg_client.go] ([validateURL], [makeRequest],
      [fetchGames], [fetchGameByID], [getStores], [generateStoreURL]),
    - the handlers and the middleware of [main.go] ([searchGames],
      [getGameByID], [rateLimiter], [validateInput]),
    - the parts of the Go standard library these functions call
      ([utf8.DecodeRuneInString], [strings.Map], [strings.ToLower],
      [url.QueryEscape]), written after the library's own code.

    A Go [string] is a sequence of bytes: it is modelled by Rocq's [string],
    whose characters are the 256 bytes.  Go's [int], [int64] and [rune] are
    modelled by [Z], with the wrap-around written where the code computes. *)

From Stdlib Require Import ZArith Ascii String List Bool Lia.
From Stdlib Require Import Floats.PrimFloat.
From stdpp Require Import base option list gmap strings fin_maps pretty.

Local Open Scope Z_scope.

(** ** Bytes and strings *)

(** The numeric value of a byte. *)
Definition byte (c : ascii) : Z := Z.of_N (N_of_ascii c).

(** Conversion [byte(x)] of an integer to a byte: truncation to 8 bits. *)
Definition to_byte (x : Z) : ascii := ascii_of_N (Z.to_N (x mod 256)).

(** [s[i]] for an index the code has checked to be in range. *)
Definition at_index (s : string) (i : nat) : Z :=
  match String.get i s with
  | Some c => byte c
  | None => 0
  end.

(** [s[n:]]. *)
Fixpoint slice_from (n : nat) (s : string) : string :=
  match n, s with
  | O, _ => s
  | S _, EmptyString => EmptyString
  | S k, String _ t => slice_from k t
  end.

(** Every byte of [s] satisfies [p]. *)
Fixpoint all_bytes (p : ascii -> bool) (s : string) : bool :=
  match s with
  | EmptyString => true
  | String c t => p c && all_bytes p t
  end.

(** Some byte of [s] satisfies [p]. *)
Fixpoint some_byte (p : ascii -> bool) (s : string) : bool :=
  match s with
  | EmptyString => false
  | String c t => p c || some_byte p t
  end.

(** Bytewise image of a string. *)
Fixpoint map_bytes (f : ascii -> ascii) (s : string) : string :=
  match s with
  | EmptyString => EmptyString
  | String c t => String (f c) (map_bytes f t)
  end.

(** [strings.HasPrefix]. *)
Definition HasPrefix (s pre : string) : bool := String.prefix pre s.

(** [strings.Contains] for a one-byte substring. *)
Definition ContainsByte (s : string) (c : ascii) : bool :=
  some_byte (Ascii.eqb c) s.

(** [strings.ContainsAny] for a set [chars] of ASCII characters: Go tests the
    bytes of [s] against the set. *)
Definition ContainsAny (s chars : string) : bool :=
  some_byte (fun c => ContainsByte chars c) s.

(** 32-bit conversions. *)
Definition int32 (z : Z) : Z := (z + 2 ^ 31) mod 2 ^ 32 - 2 ^ 31.
Definition uint32 (z : Z) : Z := z mod 2 ^ 32.

(** ** Package [unicode/utf8] *)

Module utf8.

Definition RuneError : Z := 0xFFFD.
Definition RuneSelf : Z := 0x80.
Definition MaxRune : Z := 0x10FFFF.

Definition surrogateMin : Z := 0xD800.
Definition surrogateMax : Z := 0xDFFF.

Definition t2 : Z := 0xC0.
Definition t3 : Z := 0xE0.
Definition t4 : Z := 0xF0.
Definition tx : Z := 0x80.

Definition maskx : Z := 0x3F.
Definition mask2 : Z := 0x1F.
Definition mask3 : Z := 0x0F.
Definition mask4 : Z := 0x07.

Definition rune1Max : Z := 0x7F.
Definition rune2Max : Z := 0x7FF.
Definition rune3Max : Z := 0xFFFF.

Definition locb : Z := 0x80.
Definition hicb : Z := 0xBF.

(** Entries of the table [first]: information about the first byte. *)
Definition xx : Z := 0xF1.
Definition as_ : Z := 0xF0.
Definition s1 : Z := 0x02.
Definition s2 : Z := 0x13.
Definition s3 : Z := 0x03.
Definition s4 : Z := 0x23.
Definition s5 : Z := 0x34.
Definition s6 : Z := 0x04.
Definition s7 : Z := 0x44.

(** The table [first], by ranges of the first byte. *)
Definition first (b : Z) : Z :=
  if b <? 0x80 then as_
  else if b <? 0xC2 then xx
  else if b <? 0xE0 then s1
  else if b =? 0xE0 then s2
  else if b <? 0xED then s3
  else if b =? 0xED then s4
  else if b <? 0xF0 then s3
  else if b =? 0xF0 then s5
  else if b <? 0xF4 then s6
  else if b =? 0xF4 then s7
  else xx.

(** The table [acceptRanges]: bounds on the second byte. *)
Definition acceptRanges (i : Z) : Z * Z :=
  if i =? 0 then (locb, hicb)
  else if i =? 1 then (0xA0, hicb)
  else if i =? 2 then (locb, 0x9F)
  else if i =? 3 then (0x90, hicb)
  else if i =? 4 then (locb, 0x8F)
  else (0, 0).

(** [utf8.DecodeRuneInString]: the first rune of [s] and its width. *)
Definition DecodeRuneInString (s : string) : Z * nat :=
  let n := String.length s in
  if (n <? 1)%nat then (RuneError, 0%nat)
  else
    let b0 := at_index s 0 in
    let x := first b0 in
    if as_ <=? x then
      let mask := Z.shiftr (int32 (Z.shiftl x 31)) 31 in
      (Z.lor (Z.land b0 (Z.lnot mask)) (Z.land RuneError mask), 1%nat)
    else
      let sz := Z.to_nat (Z.land x 7) in
      let accept := acceptRanges (Z.shiftr x 4) in
      if (n <? sz)%nat then (RuneError, 1%nat)
      else
        let b1 := at_index s 1 in
        if (b1 <? fst accept) || (snd accept <? b1) then (RuneError, 1%nat)
        else if (sz <=? 2)%nat then
          (Z.lor (Z.shiftl (Z.land b0 mask2) 6) (Z.land b1 maskx), 2%nat)
        else
          let b2 := at_index s 2 in
          if (b2 <? locb) || (hicb <? b2) then (RuneError, 1%nat)
          else if (sz <=? 3)%nat then
            (Z.lor (Z.lor (Z.shiftl (Z.land b0 mask3) 12)
                          (Z.shiftl (Z.land b1 maskx) 6))
                   (Z.land b2 maskx), 3%nat)
          else
            let b3 := at_index s 3 in
            if (b3 <? locb) || (hicb <? b3) then (RuneError, 1%nat)
            else
              (Z.lor (Z.lor (Z.lor (Z.shiftl (Z.land b0 mask4) 18)
                                   (Z.shiftl (Z.land b1 maskx) 12))
                            (Z.shiftl (Z.land b2 maskx) 6))
                     (Z.land b3 maskx), 4%nat).

(** [utf8.AppendRune] to the empty buffer: the UTF-8 encoding of [r]. *)
Definition EncodeRune (r : Z) : string :=
  let i := uint32 r in
  if i <=? rune1Max then String (to_byte r) ""
  else if i <=? rune2Max then
    String (to_byte (Z.lor t2 (byte (to_byte (Z.shiftr r 6)))))
      (String (to_byte (Z.lor tx (Z.land (byte (to_byte r)) maskx))) "")
  else
    let three (r : Z) :=
      String (to_byte (Z.lor t3 (byte (to_byte (Z.shiftr r 12)))))
        (String (to_byte (Z.lor tx (Z.land (byte (to_byte (Z.shiftr r 6))) maskx)))
           (String (to_byte (Z.lor tx (Z.land (byte (to_byte r)) maskx))) "")) in
    if (MaxRune <? i) || ((surrogateMin <=? i) && (i <=? surrogateMax))
    then three RuneError
    else if i <=? rune3Max then three r
    else
      String (to_byte (Z.lor t4 (byte (to_byte (Z.shiftr r 18)))))
        (String (to_byte (Z.lor tx (Z.land (byte (to_byte (Z.shiftr r 12))) maskx)))
           (String (to_byte (Z.lor tx (Z.land (byte (to_byte (Z.shiftr r 6))) maskx)))
              (String (to_byte (Z.lor tx (Z.land (byte (to_byte r)) maskx))) ""))).

End utf8.

(** ** Package [strings]: [Map] *)

(** [strings.Map]: the runes of [s] are decoded one after the other, an
    invalid byte being the rune [RuneError] of width 1; each rune is replaced
    by its image under [mapping], and dropped when the image is negative.
    [fuel] bounds the number of runes; [Map] gives one unit per byte. *)
Fixpoint Map_runes (fuel : nat) (mapping : Z -> Z) (s : string) : string :=
  match fuel with
  | O => ""
  | S fuel' =>
    match s with
    | EmptyString => ""
    | String _ _ =>
      let '(c, width) := utf8.DecodeRuneInString s in
      let r := mapping c in
      (if 0 <=? r then
         if r <? utf8.RuneSelf then String (to_byte r) "" else utf8.EncodeRune r
       else "")
      +:+ Map_runes fuel' mapping (slice_from width s)
    end
  end.

Definition Map (mapping : Z -> Z) (s : string) : string :=
  Map_runes (String.length s) mapping s.

(** ** [rawg_client.go]: endpoint validation *)

(** A Go [error] value other than [nil] is its message. *)
Definition error : Type := string.

(** The rune of a character literal. *)
Definition rn (c : ascii) : Z := byte c.

(** The mapping function of [validateURL]: a rune of the allowed set is kept,
    any other is mapped to -1. *)
Definition validRune (r : Z) : Z :=
  if ((rn "a" <=? r) && (r <=? rn "z"))
     || ((rn "A" <=? r) && (r <=? rn "Z"))
     || ((rn "0" <=? r) && (r <=? rn "9"))
     || ((r =? rn "/") || (r =? rn "-") || (r =? rn "_")
         || (r =? rn "?") || (r =? rn "=") || (r =? rn "&"))
  then r
  else -1.

(** [validateURL]: [None] is the [nil] error. *)
Definition validateURL (endpoint : string) : option error :=
  if negb (HasPrefix endpoint "/") then
    Some "endpoint must start with /"
  else
    let validEndpoint := Map validRune endpoint in
    if negb (String.eqb validEndpoint endpoint) then
      Some "invalid characters in endpoint"
    else None.

(** ** Package [net/url]: [QueryEscape] *)

Module url.

Definition upperhex : string := "0123456789ABCDEF".

(** [shouldEscape(c, encodeQueryComponent)]. *)
Definition shouldEscape (c : ascii) : bool :=
  let b := byte c in
  if ((rn "a" <=? b) && (b <=? rn "z"))
     || ((rn "A" <=? b) && (b <=? rn "Z"))
     || ((rn "0" <=? b) && (b <=? rn "9"))
  then false
  else if ContainsByte "-_.~" c then false
  else true.

Definition hexdigit (i : Z) : ascii :=
  match String.get (Z.to_nat i) upperhex with
  | Some h => h
  | None => "0"%char
  end.

(** [url.QueryEscape]: a space becomes [+], any other byte that must be
    escaped becomes [%XX]. *)
Fixpoint QueryEscape (s : string) : string :=
  match s with
  | EmptyString => ""
  | String c t =>
    if Ascii.eqb c " " then String "+" (QueryEscape t)
    else if shouldEscape c then
      String "%" (String (hexdigit (Z.shiftr (byte c) 4))
                    (String (hexdigit (Z.land (byte c) 15)) (QueryEscape t)))
    else String c (QueryEscape t)
  end.

End url.

(** ** Data model *)

(** [float64] values are only copied. *)
Definition float64 : Type := float.

Module Store.
Record t := mk { ID : Z; Name : string; URL : string; Image : string }.
End Store.

Module Game.
Record t := mk {
  ID : string;
  Title : string;
  Description : string;
  BackgroundImage : string;
  Genres : list string;
  Rating : float64;
  RatingTop : Z;
  ReleaseDate : string;
  Added : Z;
  Metacritic : Z;
  Playtime : Z;
  Updated : string;
  Reviews : Z;
  Platforms : list string;
  Stores : list Store.t
}.
End Game.

Module Genre.
Record t := mk { ID : Z; Name : string }.
End Genre.

Module PlatformDetail.
Record t := mk { ID : Z; Name : string }.
End PlatformDetail.

Module Platform.
Record t := mk { Platform : PlatformDetail.t }.
End Platform.

Module RAWGStoreDetail.
Record t := mk { ID : Z; Name : string; URL : string; Image : string }.
End RAWGStoreDetail.

Module RAWGStore.
Record t := mk { Store : RAWGStoreDetail.t }.
End RAWGStore.

Module RAWGGame.
Record t := mk {
  ID : Z;
  Name : string;
  Released : string;
  BackgroundImage : string;
  Rating : float64;
  RatingTop : Z;
  Added : Z;
  Metacritic : Z;
  Playtime : Z;
  Updated : string;
  ReviewsCount : Z;
  Description : string;
  Genres : list Genre.t;
  Platforms : list Platform.t;
  Stores : list RAWGStore.t
}.
End RAWGGame.

Module RAWGResponse.
Record t := mk {
  Count : Z;
  Next : string;
  Previous : string;
  Results : list RAWGGame.t
}.
End RAWGResponse.

Definition baseAPIURL : string := "https://api.rawg.io/api".

(** [fmt.Sprintf("%d", n)]. *)
Definition itoa (n : Z) : string := pretty n.

(** ** The normalizer and the client, over the Unicode case table *)

Section Client.

(** [unicode.To(unicode.LowerCase, r)] for a rune above [MaxASCII]: the
    lookup in the table [unicode.CaseRanges] of the Go runtime, which is not
    part of this repository. *)
Variable To_LowerCase : Z -> Z.

(** [unicode.ToLower]. *)
Definition unicode_ToLower (r : Z) : Z :=
  if r <=? 0x7F then
    if (rn "A" <=? r) && (r <=? rn "Z") then r + (rn "a" - rn "A") else r
  else To_LowerCase r.

Definition isUpperByte (c : ascii) : bool :=
  (rn "A" <=? byte c) && (byte c <=? rn "Z").

Definition lowerByte (c : ascii) : ascii :=
  if isUpperByte c then to_byte (byte c + (rn "a" - rn "A")) else c.

Definition isASCII (s : string) : bool :=
  all_bytes (fun c => byte c <? utf8.RuneSelf) s.

(** [strings.ToLower]: the bytewise path for ASCII strings, [Map] over
    [unicode.ToLower] otherwise. *)
Definition ToLower (s : string) : string :=
  if isASCII s then
    if negb (some_byte isUpperByte s) then s
    else map_bytes lowerByte s
  else Map unicode_ToLower s.

(** [generateStoreURL]. *)
Definition generateStoreURL (storeName gameName : string) : string :=
  let encodedName := url.QueryEscape gameName in
  let lower := ToLower storeName in
  if String.eqb lower "steam" then
    "https://store.steampowered.com/search/?term=" +:+ encodedName
  else if String.eqb lower "playstation store" then
    "https://store.playstation.com/search/" +:+ encodedName
  else if String.eqb lower "xbox store" then
    "https://www.xbox.com/games/search?q=" +:+ encodedName
  else if String.eqb lower "nintendo" then
    "https://www.nintendo.com/search/?q=" +:+ encodedName +:+ "&p=1&cat=gme"
  else if String.eqb lower "gog" then
    "https://www.gog.com/games?query=" +:+ encodedName
  else if String.eqb lower "epic games" then
    "https://store.epicgames.com/browse?q=" +:+ encodedName
  else
    "https://www.google.com/search?q=buy+" +:+ encodedName +:+ "+game".

(** The [Store] that [getStores] appends for one provider entry. *)
Definition storeLink (store : RAWGStore.t) (gameName : string) : Store.t :=
  let storeURL :=
    generateStoreURL (RAWGStoreDetail.Name (RAWGStore.Store store)) gameName in
  {| Store.ID := RAWGStoreDetail.ID (RAWGStore.Store store);
     Store.Name := RAWGStoreDetail.Name (RAWGStore.Store store);
     Store.URL := storeURL;
     Store.Image := RAWGStoreDetail.Image (RAWGStore.Store store) |}.

(** [getStores]: the loop appends one [Store] per entry, in order. *)
Fixpoint getStores (stores : list RAWGStore.t) (gameName : string)
  : list Store.t :=
  match stores with
  | [] => []
  | store :: rest => storeLink store gameName :: getStores rest gameName
  end.

(** [getGenres]. *)
Fixpoint getGenres (genres : list Genre.t) : list string :=
  match genres with
  | [] => []
  | genre :: rest => Genre.Name genre :: getGenres rest
  end.

(** [getPlatforms]. *)
Fixpoint getPlatforms (platforms : list Platform.t) : list string :=
  match platforms with
  | [] => []
  | platform :: rest =>
    PlatformDetail.Name (Platform.Platform platform) :: getPlatforms rest
  end.

(** The [Game] literal that [fetchGames] and [fetchGameByID] both build
    from a provider record. *)
Definition toGame (rawgGame : RAWGGame.t) : Game.t :=
  {| Game.ID := itoa (RAWGGame.ID rawgGame);
     Game.Title := RAWGGame.Name rawgGame;
     Game.Description := RAWGGame.Description rawgGame;
     Game.BackgroundImage := RAWGGame.BackgroundImage rawgGame;
     Game.Genres := getGenres (RAWGGame.Genres rawgGame);
     Game.Rating := RAWGGame.Rating rawgGame;
     Game.RatingTop := RAWGGame.RatingTop rawgGame;
     Game.ReleaseDate := RAWGGame.Released rawgGame;
     Game.Added := RAWGGame.Added rawgGame;
     Game.Metacritic := RAWGGame.Metacritic rawgGame;
     Game.Playtime := RAWGGame.Playtime rawgGame;
     Game.Updated := RAWGGame.Updated rawgGame;
     Game.Reviews := RAWGGame.ReviewsCount rawgGame;
     Game.Platforms := getPlatforms (RAWGGame.Platforms rawgGame);
     Game.Stores := getStores (RAWGGame.Stores rawgGame) (RAWGGame.Name rawgGame) |}.

(** *** Results and the client's effects *)

(** A Go pair [(value, error)]: the value when the error is [nil]. *)
Inductive result (A : Type) : Type :=
| Ok (a : A)
| Err (e : error).
Global Arguments Ok {A} a.
Global Arguments Err {A} e.

(** An [*http.Response] as the client uses it: the status code (which the
    client never reads) and what [io.ReadAll(resp.Body)] returns. *)
Record HTTPResponse := mkHTTPResponse {
  StatusCode : Z;
  ReadAll_Body : result string
}.

(** What the client reads from outside the program: the process
    environment, the URL parser and request constructor of the standard
    library, the upstream server reached by [client.Do], and
    [json.Unmarshal] at the two types it is used at. *)
Record World := mkWorld {
  Getenv : string -> string;
  url_Parse : string -> option error;
  http_NewRequest : string -> option error;
  client_Do : string -> result HTTPResponse;
  Unmarshal_RAWGResponse : string -> result RAWGResponse.t;
  Unmarshal_RAWGGame : string -> result RAWGGame.t
}.

(** The network calls made so far: the URLs passed to [client.Do]. *)
Definition Trace : Type := list string.

(** The client's monad: errors, and the trace of network calls. *)
Definition Client (A : Type) : Type := Trace -> result A * Trace.

Definition ret {A} (a : A) : Client A := fun tr => (Ok a, tr).
Definition fail {A} (e : error) : Client A := fun tr => (Err e, tr).
Definition bind {A B} (c : Client A) (k : A -> Client B) : Client B :=
  fun tr =>
    match c tr with
    | (Ok a, tr') => k a tr'
    | (Err e, tr') => (Err e, tr')
    end.

(** [fmt.Errorf(prefix + "%w", err)] on the error of a pure step. *)
Definition wrap {A} (prefix : string) (r : result A) : Client A :=
  match r with
  | Ok a => ret a
  | Err e => fail (prefix +:+ e)
  end.

Notation "x <- c ;; k" := (bind c (fun x => k))
  (at level 100, c at next level, right associativity).

Variable w : World.

(** [client.Do(req)]: the one place where the network is used. *)
Definition Do (urlStr : string) : Client HTTPResponse :=
  fun tr => (client_Do w urlStr, tr ++ [urlStr]).

(** [makeRequest]. *)
Definition makeRequest (urlStr : string) : Client HTTPResponse :=
  match url_Parse w urlStr with
  | Some err => fail ("invalid URL: " +:+ err)
  | None =>
    match http_NewRequest w urlStr with
    | Some err => fail ("error creating request: " +:+ err)
    | None =>
      fun tr =>
        match Do urlStr tr with
        | (Err err, tr') => (Err ("error making request: " +:+ err), tr')
        | (Ok resp, tr') => (Ok resp, tr')
        end
    end
  end.

(** The URL that [fetchGames] builds from the endpoint and the key. *)
Definition collectionURL (apiKey endpoint : string) : string :=
  let urlStr := baseAPIURL +:+ endpoint in
  if ContainsByte endpoint "?" then
    urlStr +:+ "&key=" +:+ apiKey +:+ "&page_size=20"
  else
    urlStr +:+ "?key=" +:+ apiKey +:+ "&page_size=20".

(** The loop of [fetchGames] over [rawgResp.Results]. *)
Fixpoint toGames (results : list RAWGGame.t) : list Game.t :=
  match results with
  | [] => []
  | rawgGame :: rest => toGame rawgGame :: toGames rest
  end.

(** [fetchGames]. *)
Definition fetchGames (endpoint : string) : Client (list Game.t) :=
  match validateURL endpoint with
  | Some err => fail ("invalid endpoint: " +:+ err)
  | None =>
    let apiKey := Getenv w "RAWG_API_KEY" in
    if String.eqb apiKey "" then fail "RAWG_API_KEY not configured"
    else
      let urlStr := collectionURL apiKey endpoint in
      resp <- makeRequest urlStr ;;
      body <- wrap "error reading response: " (ReadAll_Body resp) ;;
      rawgResp <- wrap "error parsing response: " (Unmarshal_RAWGResponse w body) ;;
      ret (toGames (RAWGResponse.Results rawgResp))
  end.

(** [fetchGameByID]: the [*Game] is [Some] of the record, [nil] is [None]. *)
Definition fetchGameByID (id : string) : Client (option Game.t) :=
  if String.eqb id "" then fail "game ID cannot be empty"
  else
    let endpoint := "/games/" +:+ id in
    match validateURL endpoint with
    | Some err => fail ("invalid game ID: " +:+ err)
    | None =>
      let apiKey := Getenv w "RAWG_API_KEY" in
      if String.eqb apiKey "" then fail "RAWG_API_KEY not configured"
      else
        let urlStr := baseAPIURL +:+ endpoint +:+ "?key=" +:+ apiKey in
        resp <- makeRequest urlStr ;;
        body <- wrap "error reading response: " (ReadAll_Body resp) ;;
        rawgGame <- wrap "error parsing response: " (Unmarshal_RAWGGame w body) ;;
        let game := Some (toGame rawgGame) in
        ret game
    end.

(** ** [main.go]: handlers *)

(** The value a handler passes to [c.JSON]: [H_error msg] is the object
    [gin.H{"error": msg}], the other two are a record and a list of records. *)
Inductive JSON : Type :=
| H_error (msg : string)
| JSON_Game (g : Game.t)
| JSON_Games (gs : list Game.t).

Record Response := mkResponse { Status : Z; Payload : JSON }.

(** The parts of a [gin.Context] the program reads: the request method, the
    raw query string, the parsed query [c.Request.URL.Query()], the request
    headers, the path parameters and the client address. *)
Record Context := mkContext {
  Method : string;
  RawQuery : string;
  URL_Query : gmap string (list string);
  Header : gmap string string;
  Params : gmap string string;
  ClientIP : string
}.

(** [c.Query(key)]: the first value of the key, or the empty string. *)
Definition Query (c : Context) (key : string) : string :=
  match URL_Query c !! key with
  | Some (v :: _) => v
  | _ => ""
  end.

(** [c.Param(key)]. *)
Definition Param (c : Context) (key : string) : string :=
  default "" (Params c !! key).

(** [c.GetHeader(key)]. *)
Definition GetHeader (c : Context) (key : string) : string :=
  default "" (Header c !! key).

(** A handler writes one response and may call the client. *)
Definition Handler : Type := Context -> Trace -> Response * Trace.

(** [handleResponse] at the type of [fetchGames]'s result. *)
Definition handleResponse (r : result (list Game.t)) : Response :=
  match r with
  | Err _ => mkResponse 500 (H_error "Internal server error")
  | Ok data => mkResponse 200 (JSON_Games data)
  end.

(** The five listing handlers share this shape. *)
Definition listing (endpoint : string) : Handler :=
  fun _ tr =>
    let '(r, tr') := fetchGames endpoint tr in
    (handleResponse r, tr').

Definition getGames : Handler := listing "/games".
Definition getLatestGames : Handler := listing "/games?ordering=-released".
Definition getPopularGames : Handler := listing "/games?ordering=-rating".
Definition getMetacriticGames : Handler := listing "/games?ordering=-metacritic".
Definition getUpcomingGames : Handler :=
  listing "/games?dates=2024-03-26,2025-03-26&ordering=released".

(** [searchGames]. *)
Definition searchGames : Handler :=
  fun c tr =>
    let query := Query c "q" in
    if String.eqb query "" then
      (mkResponse 400 (H_error "Search query is required"), tr)
    else
      let '(r, tr') := fetchGames ("/games?search=" +:+ query) tr in
      (handleResponse r, tr').

(** [getGameByID]. *)
Definition getGameByID : Handler :=
  fun c tr =>
    let id := Param c "id" in
    match fetchGameByID id tr with
    | (Err _, tr') => (mkResponse 500 (H_error "Failed to fetch game"), tr')
    | (Ok None, tr') => (mkResponse 404 (H_error "Game not found"), tr')
    | (Ok (Some game), tr') => (mkResponse 200 (JSON_Game game), tr')
    end.

End Client.

(** ** [main.go]: middleware *)

(** Conversion to [int64]: the result of 64-bit signed arithmetic. *)
Definition int64 (z : Z) : Z := (z + 2 ^ 63) mod 2 ^ 64 - 2 ^ 63.

(** [time.Now()] is an instant, counted here in nanoseconds since the Unix
    epoch; [t.Unix()] is the number of whole seconds elapsed at [t]. *)
Definition second : Z := 1000000000.
Definition Unix (t : Z) : Z := t / second.

(** What a middleware does with the request: [c.Next()], or
    [c.AbortWithStatusJSON(code, obj)], after which no later middleware and
    no handler runs. *)
Inductive Outcome : Type :=
| Next
| AbortWithStatusJSON (code : Z) (obj : JSON).

(** The first loop of [rateLimiter]: every entry of the map whose timestamp
    is more than 60 seconds before [now] is deleted.  The loop ranges over
    the map it deletes from; Go allows it and visits each entry once. *)
Definition purge (now : Z) (limiter : gmap string Z) : gmap string Z :=
  map_fold
    (fun key timestamp (acc : gmap string Z) =>
       if 60 <? int64 (now - timestamp) then delete key acc else acc)
    limiter limiter.

(** The handler [rateLimiter] returns, on the map it closes over: the whole
    body runs under the mutex, so it is one step on the map.  [now] is the
    value of [time.Now().Unix()]: for a request handled at the instant [a],
    the step is [rateLimiter limiter (Unix a) c]. *)
Definition rateLimiter (limiter : gmap string Z) (now : Z) (c : Context)
  : Outcome * gmap string Z :=
  let ip := ClientIP c in
  let limiter := purge now limiter in
  let '(timestamp, exists_) :=
    match limiter !! ip with
    | Some t => (t, true)
    | None => (0, false)
    end in
  if exists_ && (int64 (now - timestamp) <? 1) then
    (AbortWithStatusJSON 429 (H_error "Too many requests"), limiter)
  else
    (Next, <[ip := now]> limiter).

(** The characters [validateInput] refuses in a parameter name; the last one
    is the backslash. *)
Definition refusedChars : string := "<>{}[]" +:+ String "092"%char "".

(** The handler [validateInput] returns.  The loop over the parameter names
    aborts at the first name with a refused character, whatever the order in
    which the map is visited. *)
Definition validateInput (c : Context) : Outcome :=
  if 1024 <? Z.of_nat (String.length (RawQuery c)) then
    AbortWithStatusJSON 400 (H_error "Query string too long")
  else if String.eqb (Method c) "POST"
          && negb (String.eqb (GetHeader c "Content-Type") "application/json") then
    AbortWithStatusJSON 415 (H_error "Unsupported Media Type")
  else if existsb (fun param => ContainsAny param refusedChars)
            (map fst (map_to_list (URL_Query c))) then
    AbortWithStatusJSON 400 (H_error "Invalid characters in parameters")
  else Next.

(** The state of the running server: the rate limiter's map and the network
    calls made so far. *)
Record Server := mkServer {
  limiter : gmap string Z;
  trace : Trace
}.

(** One request through the chain installed by [initializeServer], for the
    route handler [h]: [securityHeaders] and [limitBodySize] always call
    [c.Next()]; then [rateLimiter], then [validateInput], then the handler. *)
Definition serve (h : Handler) (st : Server) (now : Z) (c : Context)
  : Response * Server :=
  match rateLimiter (limiter st) now c with
  | (AbortWithStatusJSON code obj, l') =>
    (mkResponse code obj, mkServer l' (trace st))
  | (Next, l') =>
    match validateInput c with
    | AbortWithStatusJSON code obj =>
      (mkResponse code obj, mkServer l' (trace st))
    | Next =>
      let '(r, tr') := h c (trace st) in
      (r, mkServer l' tr')
    end
  end.

(** ** The first revision of the client ([fetchGames] without validation) *)

Module Legacy.

(** The URL the first revision of [fetchGames] builds.  The revision does not
    validate the endpoint; on the empty endpoint the index expression
    [endpoint[len(endpoint)-1]] panics, a case left out here. *)
Definition collectionURL (apiKey endpoint : string) : string :=
  let baseURL := "https://api.rawg.io/api" +:+ endpoint in
  if String.eqb endpoint "/games" || String.eqb endpoint "/games/latest"
     || String.eqb endpoint "/games/popular" then
    baseURL +:+ "?key=" +:+ apiKey +:+ "&page_size=20&stores=1,2,3,4,5,6,7,8,9,10,11"
  else if (at_index endpoint (String.length endpoint - 1) =? rn "?") then
    baseURL +:+ "key=" +:+ apiKey +:+ "&page_size=20&stores=1,2,3,4,5,6,7,8,9,10,11"
  else
    baseURL +:+ "&key=" +:+ apiKey +:+ "&page_size=20&stores=1,2,3,4,5,6,7,8,9,10,11".

End Legacy.

(** ** Definitions that follow the specification *)

(** The character set the specification gives for endpoint paths:
    [a-zA-Z0-9/_?=&-]. *)
Definition allowedChars : string :=
  "abcdefghijklmnopqrstuvwxyzABCDEFGHIJKLMNOPQRSTUVWXYZ0123456789/_?=&-".

Definition allowedChar (c : ascii) : bool := ContainsByte allowedChars c.

Definition onlyAllowed (s : string) : bool := all_bytes allowedChar s.

(** The specification's [InvalidEndpoint]: the error [fetchGames] builds by
    wrapping the error of [validateURL]. *)
Definition isInvalidEndpoint (e : error) : bool :=
  HasPrefix e "invalid endpoint: ".

(** The specification's [MissingCredential]. *)
Definition MissingCredential : error := "RAWG_API_KEY not configured".

(** The separator the specification gives: [&] if the path already contains
    [?], else [?]. *)
Definition separator (endpoint : string) : string :=
  if ContainsByte endpoint "?" then "&" else "?".

(** The store filter of the first revision of the client. *)
Definition storeFilter : string := "&stores=1,2,3,4,5,6,7,8,9,10,11".

(** The outbound URL of a collection query as the specification states it,
    for a given store-filter parameter. *)
Definition claimedCollectionURL (filter apiKey endpoint : string) : string :=
  baseAPIURL +:+ endpoint +:+ separator endpoint +:+ "key=" +:+ apiKey
  +:+ "&page_size=20" +:+ filter.

















(** Equality of two ASCII strings up to the case of their letters. *)
Fixpoint equalFoldASCII (a b : string) : bool :=
  match a, b with
  | EmptyString, EmptyString => true
  | String x a', String y b' =>
    Ascii.eqb (lowerByte x) (lowerByte y) && equalFoldASCII a' b'
  | _, _ => false
  end.

(** A reading of the clock far from the ends of [int64], so that the
    difference of two readings does not wrap around. *)
Definition validClock (t : Z) : Prop := - 2 ^ 62 <= t < 2 ^ 62.

(** Every timestamp of the map is such a reading: the map only ever holds
    values of [now]. *)
Definition clocksValid (l : gmap string Z) : Prop :=
  forall k t, l !! k = Some t -> validClock t.

(** The response of the rate limiter to a request it refuses. *)
Definition tooMany : Outcome :=
  AbortWithStatusJSON 429 (H_error "Too many requests").

(** The map after a run of requests of one client, handled at the given
    readings of the clock. *)
Fixpoint attempts (l : gmap string Z) (c : Context) (nows : list Z)
  : gmap string Z :=
  match nows with
  | [] => l
  | now :: rest => attempts (snd (rateLimiter l now c)) c rest
  end.

(** The character [ch] occurs in [s]. *)
Fixpoint occurs (ch : ascii) (s : string) : Prop :=
  match s with
  | EmptyString => False
  | String c t => ch = c \/ occurs ch t
  end.

(** A parameter name with one of the characters [< > { } [ ] \]. *)
Definition hasRefusedChar (param : string) : Prop :=
  exists ch, occurs ch param /\ occurs ch refusedChars.

(** The names of the query parameters of a request. *)
Definition paramNames (c : Context) : list string :=
  map fst (map_to_list (URL_Query c)).

Definition isPOST (c : Context) : Prop := Method c = "POST".

(** The second check of [validateInput], as a boolean. *)
Definition nonJSONPost (c : Context) : bool :=
  String.eqb (Method c) "POST"
  && negb (String.eqb (GetHeader c "Content-Type") "application/json").

(** ** Concrete inputs *)

(** A case table without entries above ASCII.  The examples below only
    lower-case ASCII names, for which the table is not consulted
    ([generateStoreURL_ascii_any_table]). *)
Definition noCaseTable : Z -> Z := fun r => r.

(** The provider record [json.Unmarshal] yields for a JSON object without the
    fields of [RAWGGame], such as the body of the provider's "not found" reply:
    every field keeps its zero value. *)
Definition zeroGame : RAWGGame.t :=
  RAWGGame.mk 0 "" "" "" 0%float 0 0 0 0 "" 0 "" [] [] [].

Definition emptyResponse : RAWGResponse.t := RAWGResponse.mk 0 "" "" [].

(** A world with the given API key, in which every URL is well formed and
    the upstream answers every request with the given status and a body that
    decodes to [game], or to an empty page. *)
Definition worldWith (key : string) (status : Z) (game : RAWGGame.t) : World :=
  {| Getenv := fun name => if String.eqb name "RAWG_API_KEY" then key else "";
     url_Parse := fun _ => None;
     http_NewRequest := fun _ => None;
     client_Do := fun _ => Ok (mkHTTPResponse status (Ok "{}"));
     Unmarshal_RAWGResponse := fun _ => Ok emptyResponse;
     Unmarshal_RAWGGame := fun _ => Ok game |}.

(** The upstream has no game of the requested identifier. *)
Definition notFoundWorld : World := worldWith "secret" 404 zeroGame.

(** The API key is not configured. *)
Definition noKeyWorld : World := worldWith "" 200 zeroGame.

Definition plainGET (params : gmap string (list string)) : Context :=
  mkContext "GET" "" params ∅ ∅ "203.0.113.7".

(** [GET /games/999999]. *)
Definition getMissingGame : Context :=
  mkContext "GET" "" ∅ ∅ {["id" := "999999"]} "203.0.113.7".

(** A provider store entry that carries a URL of its own. *)
Definition steamEntry : RAWGStore.t :=
  RAWGStore.mk
    (RAWGStoreDetail.mk 1 "Steam" "https://store.steampowered.com/app/620" "").

(** A raw query string of 1025 bytes. *)
Definition longQuery : string := string_of_list_ascii (repeat "a"%char 1025).

(** A [POST] with [Content-Type: text/plain] and the long query string. *)
Definition plainPostLongQuery : Context :=
  mkContext "POST" longQuery ∅ {["Content-Type" := "text/plain"]} ∅ "203.0.113.7".

(** A [POST] with [Content-Type: text/plain] and no query. *)
Definition plainPost : Context :=
  mkContext "POST" "" ∅ {["Content-Type" := "text/plain"]} ∅ "203.0.113.7".

(** A [GET] with a parameter named [a<b]. *)
Definition badNameGET : Context :=
  mkContext "GET" "a%3Cb=1" {["a<b" := ["1"]]} ∅ ∅ "203.0.113.7".

(** A [GET] whose raw query is the long query string. *)
Definition longQueryGET : Context :=
  mkContext "GET" longQuery ∅ ∅ ∅ "203.0.113.7".

(** The rate limiter's map with one client, last let through at second 1000,
    and with a second client, last let through at second 900. *)
Definition oneClient : gmap string Z := {["203.0.113.7" := 1000]}.
Definition twoClients : gmap string Z := <["198.51.100.2" := 900]> oneClient.

(** ** Definitions for the further properties *)

(** A world in which every upstream response carries the status [f status]
    instead of [status], and nothing else differs. *)
Definition withStatus (f : Z -> Z) (w : World) : World :=
  {| Getenv := Getenv w;
     url_Parse := url_Parse w;
     http_NewRequest := http_NewRequest w;
     client_Do := fun urlStr =>
       match client_Do w urlStr with
       | Ok resp => Ok (mkHTTPResponse (f (StatusCode resp)) (ReadAll_Body resp))
       | Err e => Err e
       end;
     Unmarshal_RAWGResponse := Unmarshal_RAWGResponse w;
     Unmarshal_RAWGGame := Unmarshal_RAWGGame w |}.

(** The URL [fetchGameByID] builds from the identifier and the key. *)
Definition gameURL (apiKey id : string) : string :=
  baseAPIURL +:+ "/games/" +:+ id +:+ "?key=" +:+ apiKey.

(** The bytes [url.QueryEscape] can produce: the unreserved characters, [+]
    for a space and [%] with its two hexadecimal digits. *)
Definition escapedChars : string :=
  "abcdefghijklmnopqrstuvwxyzABCDEFGHIJKLMNOPQRSTUVWXYZ0123456789-_.~+%".

Definition escapedChar (c : ascii) : bool := ContainsByte escapedChars c.

(** The bytes of a synthesized store URL: those of an escaped title and the
    delimiters of the templates. *)
Definition urlChars : string := escapedChars +:+ ":/?=&".

Definition urlChar (c : ascii) : bool := ContainsByte urlChars c.

(** The value of a hexadecimal digit. *)
Definition unhex (c : ascii) : Z :=
  let b := byte c in
  if (rn "0" <=? b) && (b <=? rn "9") then b - rn "0"
  else if (rn "A" <=? b) && (b <=? rn "F") then b - rn "A" + 10
  else 0.

(** Reading an escaped title back: [+] is a space, [%XX] the byte of value
    [XX], any other byte itself. *)
Fixpoint unescape (s : string) : string :=
  match s with
  | EmptyString => ""
  | String c t =>
    if Ascii.eqb c "+" then String " " (unescape t)
    else if Ascii.eqb c "%" then
      match t with
      | String h (String l t') =>
        String (to_byte (16 * unhex h + unhex l)) (unescape t')
      | _ => ""
      end
    else String c (unescape t)
  end.

(** A provider record with one store entry, a page of two records, and a
    world whose upstream answers every request with that page (or, for a
    single-record lookup, with the first record) under the status 500. *)
Definition portal2 : RAWGGame.t :=
  RAWGGame.mk 620 "Portal 2" "2011-04-18" "" 0%float 5 0 95 8 "" 0 ""
    [Genre.mk 2 "Shooter"; Genre.mk 7 "Puzzle"] [] [steamEntry].

Definition samplePage : RAWGResponse.t := RAWGResponse.mk 2 "" "" [portal2; zeroGame].

Definition pageWorld : World :=
  {| Getenv := fun name => if String.eqb name "RAWG_API_KEY" then "secret" else "";
     url_Parse := fun _ => None;
     http_NewRequest := fun _ => None;
     client_Do := fun _ => Ok (mkHTTPResponse 500 (Ok "{}"));
     Unmarshal_RAWGResponse := fun _ => Ok samplePage;
     Unmarshal_RAWGGame := fun _ => Ok portal2 |}.

(** [GET /games/search?q=half life]: the decoded query has a space. *)
Definition searchHalfLife : Context :=
  mkContext "GET" "q=half+life" {["q" := ["half life"]]} ∅ ∅ "203.0.113.7".

(** The map after the requests [cs], all handled at the clock reading [now],
    one after the other. *)
Fixpoint runAt (now : Z) (l : gmap string Z) (cs : list Context) : gmap string Z :=
  match cs with
  | [] => l
  | c :: rest => runAt now (snd (rateLimiter l now c)) rest
  end.

(** A request of another client. *)
Definition otherGET : Context := mkContext "GET" "" ∅ ∅ ∅ "198.51.100.2".

(** An error of the client that reports a failed exchange with the upstream:
    the request, the reading of the body, or its decoding. *)
Definition isUpstreamError (e : error) : bool :=
  HasPrefix e "error making request: "
  || HasPrefix e "error reading response: "
  || HasPrefix e "error parsing response: ".

(** The handlers [setupRoutes] registers, in its order. *)
Definition routeHandlers (tbl : Z -> Z) (w : World) : list Handler :=
  [ getGames tbl w; getLatestGames tbl w; getPopularGames tbl w;
    getMetacriticGames tbl w; getUpcomingGames tbl w;
    searchGames tbl w; getGameByID tbl w ].

(** * Properties *)

(** ** Bytes, bit operations and UTF-8 decoding *)

Lemma byte_range (c : ascii) : 0 <= byte c < 256.
Proof.
  unfold byte. pose proof (N_ascii_bounded c) as H. lia.
Qed.

Lemma to_byte_byte (c : ascii) : to_byte (byte c) = c.
Proof.
  unfold to_byte. pose proof (byte_range c) as H.
  rewrite Z.mod_small by lia. unfold byte.
  rewrite N2Z.id. apply ascii_N_embedding.
Qed.

Lemma at_index_is_byte (s : string) (i : nat) : exists c, at_index s i = byte c.
Proof.
  unfold at_index. destruct (String.get i s) as [c|].
  - now exists c.
  - now exists "000"%char.
Qed.

Lemma at_index_range (s : string) (i : nat) : 0 <= at_index s i < 256.
Proof. destruct (at_index_is_byte s i) as [c ->]. apply byte_range. Qed.

Lemma lor_ge_l (a b : Z) : 0 <= a -> 0 <= b -> a <= Z.lor a b.
Proof.
  intros Ha Hb. pose proof (Z.sub_lor_l_same_r b a) as H.
  rewrite Z.lor_comm in H.
  assert (0 <= Z.land b (Z.lnot a)) by (apply Z.land_nonneg; lia).
  lia.
Qed.

Lemma lor_ge_r (a b : Z) : 0 <= a -> 0 <= b -> b <= Z.lor a b.
Proof. intros. rewrite Z.lor_comm. now apply lor_ge_l. Qed.

(** An ASCII byte is a rune of its own, of width 1. *)
Lemma decode_ascii (c : ascii) (t : string) :
  byte c < 128 -> utf8.DecodeRuneInString (String c t) = (byte c, 1%nat).
Proof.
  intros Hc. pose proof (byte_range c) as Hr.
  unfold utf8.DecodeRuneInString.
  cbn [String.length Nat.ltb Nat.leb].
  change (at_index (String c t) 0) with (byte c).
  unfold utf8.first.
  destruct (Z.ltb_spec (byte c) 128) as [_|]; [|lia].
  change (utf8.as_ <=? utf8.as_) with true. cbv iota.
  change (Z.shiftr (int32 (Z.shiftl utf8.as_ 31)) 31) with 0.
  change (Z.lnot 0) with (-1).
  rewrite Z.land_m1_r, Z.land_0_r, Z.lor_0_r. reflexivity.
Qed.

(** Linear arithmetic with remainders by constants. *)
Ltac mod_lia := Z.to_euclidean_division_equations; lia.

(** Replaces each bitwise or by a variable bounded below by its operands. *)
Ltac lor_bounds :=
  repeat match goal with
  | |- context [Z.lor ?a ?b] =>
      lazymatch a with context [Z.lor _ _] => fail | _ => idtac end;
      let Ha := fresh "Ha" in
      let Hb := fresh "Hb" in
      assert (Ha : 0 <= a) by lia;
      assert (Hb : 0 <= b) by lia;
      pose proof (lor_ge_l a b Ha Hb);
      pose proof (lor_ge_r a b Ha Hb);
      generalize dependent (Z.lor a b); intros
  end.

(** A byte above ASCII starts a rune above ASCII (possibly [RuneError]), of
    width at least 1. *)
Lemma decode_non_ascii (c : ascii) (t : string) :
  128 <= byte c ->
  128 <= fst (utf8.DecodeRuneInString (String c t))
  /\ (1 <= snd (utf8.DecodeRuneInString (String c t)))%nat.
Proof.
  intros Hc. pose proof (byte_range c) as Hr.
  unfold utf8.DecodeRuneInString.
  cbn [String.length Nat.ltb Nat.leb].
  change (at_index (String c t) 0) with (byte c).
  set (b0 := byte c) in *.
  pose proof (at_index_range (String c t) 1) as H1.
  pose proof (at_index_range (String c t) 2) as H2.
  pose proof (at_index_range (String c t) 3) as H3.
  set (b1 := at_index (String c t) 1) in *.
  set (b2 := at_index (String c t) 2) in *.
  set (b3 := at_index (String c t) 3) in *.
  set (n := S (String.length t)).
  assert (Hm2 : Z.land b0 utf8.mask2 = b0 mod 32)
    by (change utf8.mask2 with (Z.ones 5); now rewrite Z.land_ones by lia).
  assert (Hm3 : Z.land b0 utf8.mask3 = b0 mod 16)
    by (change utf8.mask3 with (Z.ones 4); now rewrite Z.land_ones by lia).
  assert (Hm4 : Z.land b0 utf8.mask4 = b0 mod 8)
    by (change utf8.mask4 with (Z.ones 3); now rewrite Z.land_ones by lia).
  assert (Hx1 : Z.land b1 utf8.maskx = b1 mod 64)
    by (change utf8.maskx with (Z.ones 6); now rewrite Z.land_ones by lia).
  assert (Hx2 : Z.land b2 utf8.maskx = b2 mod 64)
    by (change utf8.maskx with (Z.ones 6); now rewrite Z.land_ones by lia).
  assert (Hx3 : Z.land b3 utf8.maskx = b3 mod 64)
    by (change utf8.maskx with (Z.ones 6); now rewrite Z.land_ones by lia).
  rewrite Hm2, Hm3, Hm4, Hx1, Hx2, Hx3.
  rewrite !Z.shiftl_mul_pow2 by lia.
  assert (Hp1 : 0 <= b1 mod 64) by mod_lia.
  assert (Hp2 : 0 <= b2 mod 64) by mod_lia.
  assert (Hp3 : 0 <= b3 mod 64) by mod_lia.
  assert (Hq1 : 160 <= b1 <= 191 -> 32 <= b1 mod 64) by mod_lia.
  assert (Hq2 : 144 <= b1 <= 191 -> 16 <= b1 mod 64) by mod_lia.
  assert (Hl2 : 0 <= b0 mod 32 /\ (194 <= b0 < 224 -> 2 <= b0 mod 32)) by mod_lia.
  assert (Hl3 : 0 <= b0 mod 16 /\ (225 <= b0 < 240 -> 1 <= b0 mod 16)) by mod_lia.
  assert (Hl4 : 0 <= b0 mod 8 /\ (241 <= b0 < 245 -> 1 <= b0 mod 8)) by mod_lia.
  generalize dependent (b0 mod 32); intros m2 ? ?.
  generalize dependent (b0 mod 16); intros m3 ? ?.
  generalize dependent (b0 mod 8); intros m4 ? ?.
  generalize dependent (b1 mod 64); intros x1 ? ? ? ?.
  generalize dependent (b2 mod 64); intros x2 ? ?.
  generalize dependent (b3 mod 64); intros x3 ? ?.
  unfold utf8.first.
  repeat match goal with
  | |- context [if ?b <? ?k then _ else _] =>
      destruct (Z.ltb_spec b k)
  | |- context [if ?b =? ?k then _ else _] =>
      destruct (Z.eqb_spec b k)
  end; try lia.
  all: repeat match goal with
  | |- context [utf8.as_ <=? ?x] =>
      let v := eval vm_compute in (utf8.as_ <=? x) in
      change (utf8.as_ <=? x) with v
  | |- context [Z.to_nat (Z.land ?x 7)] =>
      let v := eval vm_compute in (Z.to_nat (Z.land x 7)) in
      change (Z.to_nat (Z.land x 7)) with v
  | |- context [utf8.acceptRanges ?i] =>
      let v := eval vm_compute in (utf8.acceptRanges i) in
      change (utf8.acceptRanges i) with v
  | |- context [int32 ?z ≫ 31] =>
      let v := eval vm_compute in (int32 z ≫ 31) in
      change (int32 z ≫ 31) with v
  end; cbv iota; cbn [fst snd].
  all: try (change (Z.lnot (-1)) with 0; rewrite Z.land_0_r, Z.land_m1_r;
            split; [vm_compute; discriminate | lia]).
  all: clearbody n.
  all: repeat first
  [ match goal with
    | |- context [if (?a <? ?b)%nat then _ else _] => is_var a; destruct (a <? b)%nat
    | |- context [if (?a <? ?b) || (?c <? ?d) then _ else _] =>
        destruct (Z.ltb_spec a b), (Z.ltb_spec c d); cbn [orb]
    end
  | progress cbn [Nat.leb fst snd] ].
  all: repeat match goal with
  | |- context [if ?b then _ else _] => destruct b
  end; cbn [fst snd].
  all: try (split; [vm_compute; discriminate | lia]).
  all: split; [|lia].
  all: unfold utf8.locb, utf8.hicb in *; lor_bounds; lia.
Qed.

(** ** [strings.Map] with the mapping of [validateURL] *)

(** The set of the specification is the set the mapping keeps. *)
Lemma allowedChar_validRune (c : ascii) :
  allowedChar c = (0 <=? validRune (byte c)).
Proof. destruct c as [[] [] [] [] [] [] [] []]; vm_compute; reflexivity. Qed.

Lemma validRune_cases (r : Z) :
  (validRune r = r /\ 0 <= r < 128) \/ validRune r = -1.
Proof.
  unfold validRune.
  match goal with |- context [if ?b then _ else _] => destruct b eqn:E end;
    [left; split; [reflexivity|] | now right].
  repeat match type of E with context [rn ?c] =>
    let v := eval vm_compute in (rn c) in change (rn c) with v in E end.
  lia.
Qed.

Lemma validRune_high (r : Z) : 128 <= r -> validRune r = -1.
Proof. intros H. destruct (validRune_cases r) as [[_ ?]|]; [lia | assumption]. Qed.

Lemma length_slice_from (k : nat) (s : string) :
  String.length (slice_from k s) = (String.length s - k)%nat.
Proof.
  revert s; induction k as [|k IH]; intros [|c t]; cbn; auto.
Qed.

Lemma length_append (s t : string) :
  String.length (s +:+ t) = (String.length s + String.length t)%nat.
Proof.
  induction s as [|c s IH]; [reflexivity|].
  change (String c s +:+ t) with (String c (s +:+ t)).
  cbn [String.length]. now rewrite IH.
Qed.

(** One step of [Map validRune] on a non-empty string: a byte of the allowed
    set is kept, and anything else (a refused ASCII byte, a multi-byte rune,
    an invalid byte) is dropped with the whole width of its rune. *)
Lemma Map_runes_validRune_step (fuel : nat) (c : ascii) (t : string) :
  Map_runes (S fuel) validRune (String c t) =
    if allowedChar c then String c (Map_runes fuel validRune t)
    else Map_runes fuel validRune
           (slice_from (snd (utf8.DecodeRuneInString (String c t))) (String c t)).
Proof.
  rewrite allowedChar_validRune.
  cbn [Map_runes].
  destruct (Z.lt_ge_cases (byte c) 128) as [Hlt|Hge].
  - rewrite (decode_ascii c t Hlt). cbn [snd slice_from].
    destruct (validRune_cases (byte c)) as [[-> _]| ->].
    + pose proof (byte_range c).
      destruct (Z.leb_spec 0 (byte c)); [|lia].
      destruct (Z.ltb_spec (byte c) utf8.RuneSelf) as [|Hn];
        [|unfold utf8.RuneSelf in Hn; lia].
      now rewrite to_byte_byte.
    + reflexivity.
  - destruct (decode_non_ascii c t Hge) as [Hr _].
    destruct (utf8.DecodeRuneInString (String c t)) as [r width].
    cbn [fst snd] in *.
    rewrite (validRune_high r Hr), (validRune_high (byte c) Hge).
    reflexivity.
Qed.

Lemma Map_runes_validRune_length (fuel : nat) (s : string) :
  (String.length (Map_runes fuel validRune s) <= String.length s)%nat.
Proof.
  revert s; induction fuel as [|fuel IH]; intros s; [cbn; lia|].
  destruct s as [|c t]; [cbn; lia|].
  rewrite Map_runes_validRune_step.
  destruct (allowedChar c).
  - cbn [String.length]. specialize (IH t). lia.
  - etransitivity; [apply IH|]. rewrite length_slice_from. lia.
Qed.

Lemma Map_runes_validRune_fixpoint (fuel : nat) (s : string) :
  (String.length s <= fuel)%nat ->
  Map_runes fuel validRune s = s <-> onlyAllowed s = true.
Proof.
  revert s; induction fuel as [|fuel IH]; intros s Hlen.
  - destruct s; cbn in *; [tauto | lia].
  - destruct s as [|c t]; [cbn; tauto|].
    rewrite Map_runes_validRune_step.
    cbn [onlyAllowed all_bytes String.length] in *.
    destruct (allowedChar c) eqn:Hc; cbn [andb].
    + rewrite <- (IH t) by lia. split; [now intros [= ->] | now intros ->].
    + split; [|discriminate]. intros Heq.
      pose proof (Map_runes_validRune_length fuel
        (slice_from (snd (utf8.DecodeRuneInString (String c t))) (String c t))) as Hl.
      rewrite Heq, length_slice_from in Hl. cbn [String.length] in Hl.
      assert (1 <= snd (utf8.DecodeRuneInString (String c t)))%nat; [|lia].
      destruct (Z.lt_ge_cases (byte c) 128) as [Hlt|Hge].
      * rewrite (decode_ascii c t Hlt). cbn; lia.
      * apply (decode_non_ascii c t Hge).
Qed.

(** [validateURL] returns [nil] exactly on the endpoints that start with [/]
    and have only allowed characters. *)
Lemma validateURL_nil_iff (endpoint : string) :
  validateURL endpoint = None <->
  HasPrefix endpoint "/" = true /\ onlyAllowed endpoint = true.
Proof.
  unfold validateURL.
  destruct (HasPrefix endpoint "/"); cbn [negb].
  - rewrite <- (Map_runes_validRune_fixpoint (String.length endpoint) endpoint) by lia.
    fold (Map validRune endpoint).
    destruct (String.eqb_spec (Map validRune endpoint) endpoint) as [E|E]; cbn [negb].
    + tauto.
    + split; [discriminate | tauto].
  - split; [discriminate | intros [? _]; discriminate].
Qed.

(** ** String concatenation *)

Lemma append_assoc (a b c : string) : (a +:+ b) +:+ c = a +:+ b +:+ c.
Proof.
  induction a as [|x a IH]; [reflexivity|].
  change (String x a +:+ b) with (String x (a +:+ b)).
  change (String x (a +:+ b) +:+ c) with (String x ((a +:+ b) +:+ c)).
  now rewrite IH.
Qed.


(** ** The upstream client *)

Section ClientFacts.

Variable To_LowerCase : Z -> Z.
Variable w : World.

Lemma validateURL_error_cases (endpoint : string) :
  validateURL endpoint = None
  \/ validateURL endpoint = Some "endpoint must start with /"
  \/ validateURL endpoint = Some "invalid characters in endpoint".
Proof.
  unfold validateURL.
  destruct (HasPrefix endpoint "/"); cbn [negb]; [|tauto].
  destruct (Map validRune endpoint =? endpoint)%string; cbn [negb]; tauto.
Qed.

(** An endpoint that fails validation ends [fetchGames] at once: the error
    is wrapped and the trace of network calls is the one it started with. *)
Lemma fetchGames_invalid (endpoint : string) (err : error) (tr : Trace) :
  validateURL endpoint = Some err ->
  fetchGames To_LowerCase w endpoint tr = (Err ("invalid endpoint: " +:+ err), tr).
Proof. intros H. unfold fetchGames. now rewrite H. Qed.

(** C5: for every endpoint that does not start with [/] or contains a
    character outside [a-zA-Z0-9/_?=&-], [fetchGames] returns an
    invalid-endpoint error and makes no network call (the trace is unchanged);
    for every endpoint that starts with [/] and contains only characters of
    that set, validation succeeds. *)
Theorem fetchGames_rejects_invalid_endpoint (endpoint : string) (tr : Trace) :
  (HasPrefix endpoint "/" = false \/ onlyAllowed endpoint = false ->
   exists e, fetchGames To_LowerCase w endpoint tr = (Err e, tr)
             /\ isInvalidEndpoint e = true)
  /\ (HasPrefix endpoint "/" = true -> onlyAllowed endpoint = true ->
      validateURL endpoint = None).
Proof.
  split.
  - intros Hbad.
    destruct (validateURL_error_cases endpoint) as [H|[H|H]].
    + apply validateURL_nil_iff in H as [H1 H2].
      destruct Hbad; congruence.
    + eexists; split; [apply fetchGames_invalid, H|reflexivity].
    + eexists; split; [apply fetchGames_invalid, H|reflexivity].
  - intros H1 H2. now apply validateURL_nil_iff.
Qed.

(** C6: for every valid endpoint path, when the API key read from the
    environment is empty, [fetchGames] and [fetchGameByID] both return the
    missing-credential error and make no network call. *)
Theorem missing_credential_fails_fast (tr : Trace) :
  Getenv w "RAWG_API_KEY" = "" ->
  (forall endpoint, validateURL endpoint = None ->
     fetchGames To_LowerCase w endpoint tr = (Err MissingCredential, tr))
  /\ (forall id, id <> "" -> validateURL ("/games/" +:+ id) = None ->
        fetchGameByID To_LowerCase w id tr = (Err MissingCredential, tr)).
Proof.
  intros Hkey. split.
  - intros endpoint Hv. unfold fetchGames. now rewrite Hv, Hkey.
  - intros id Hid Hv. unfold fetchGameByID.
    destruct (String.eqb_spec id ""); [congruence|].
    now rewrite Hv, Hkey.
Qed.

Lemma collectionURL_eq (apiKey endpoint : string) :
  collectionURL apiKey endpoint
  = baseAPIURL +:+ endpoint +:+ separator endpoint
    +:+ "key=" +:+ apiKey +:+ "&page_size=20".
Proof.
  unfold collectionURL, separator.
  destruct (ContainsByte endpoint "?"); now rewrite !append_assoc.
Qed.

(** [makeRequest] on a well-formed URL makes exactly one network call. *)
Lemma makeRequest_trace (urlStr : string) (tr : Trace) :
  url_Parse w urlStr = None -> http_NewRequest w urlStr = None ->
  snd (makeRequest w urlStr tr) = tr ++ [urlStr].
Proof.
  intros H1 H2. unfold makeRequest. rewrite H1, H2. unfold Do.
  now destruct (client_Do w urlStr).
Qed.

Lemma bind_trace {A B} (c : Client A) (k : A -> Client B) (tr : Trace) :
  (forall a tr', snd (k a tr') = tr') ->
  snd (bind c k tr) = snd (c tr).
Proof.
  intros Hk. unfold bind.
  destruct (c tr) as [[a|e] tr']; [apply Hk | reflexivity].
Qed.

Lemma wrap_trace {A} (prefix : string) (r : result A) (tr : Trace) :
  snd (wrap prefix r tr) = tr.
Proof. now destruct r. Qed.

(** C7, as amended: for every valid collection endpoint and non-empty key,
    the URL [fetchGames] builds is the base URL and the endpoint followed by
    [key=<key>&page_size=20] and nothing else (no store filter), joined with
    [&] if the endpoint contains [?] and with [?] otherwise; when the URL is
    well formed it is the one URL requested from the network. *)
Theorem fetchGames_outbound_URL (apiKey endpoint : string) (tr : Trace) :
  let urlStr := baseAPIURL +:+ endpoint +:+ separator endpoint
                +:+ "key=" +:+ apiKey +:+ "&page_size=20" in
  validateURL endpoint = None ->
  Getenv w "RAWG_API_KEY" = apiKey -> apiKey <> "" ->
  url_Parse w urlStr = None -> http_NewRequest w urlStr = None ->
  collectionURL apiKey endpoint = urlStr
  /\ snd (fetchGames To_LowerCase w endpoint tr) = tr ++ [urlStr].
Proof.
  intros urlStr Hv Hk Hne Hp Hn. split; [apply collectionURL_eq|].
  unfold fetchGames. rewrite Hv, Hk.
  destruct (String.eqb_spec apiKey ""); [congruence|].
  rewrite collectionURL_eq. fold urlStr.
  rewrite bind_trace; [now apply makeRequest_trace|].
  intros resp tr1. rewrite bind_trace; [apply wrap_trace|].
  intros body tr2. rewrite bind_trace; [apply wrap_trace|].
  reflexivity.
Qed.

Lemma Query_absent (c : Context) (key : string) :
  URL_Query c !! key = None -> Query c key = "".
Proof. intros H. unfold Query. now rewrite H. Qed.

(** C9: when the parameter [q] is absent or empty, [searchGames] responds
    400 with the error "Search query is required" and makes no upstream call
    (the trace is unchanged); when [q] is not empty, it calls the upstream
    client [fetchGames] on the search endpoint of that query and responds
    with what [handleResponse] makes of the result. *)
Theorem searchGames_requires_query (c : Context) (tr : Trace) :
  (URL_Query c !! "q" = None \/ Query c "q" = "" ->
   searchGames To_LowerCase w c tr
   = (mkResponse 400 (H_error "Search query is required"), tr))
  /\ (Query c "q" <> "" ->
      searchGames To_LowerCase w c tr
      = (handleResponse
           (fst (fetchGames To_LowerCase w ("/games?search=" +:+ Query c "q") tr)),
         snd (fetchGames To_LowerCase w ("/games?search=" +:+ Query c "q") tr))).
Proof.
  split.
  - intros H. assert (Hq : Query c "q" = "")
      by (destruct H; [now apply Query_absent|assumption]).
    unfold searchGames. now rewrite Hq.
  - intros Hq. unfold searchGames.
    destruct (String.eqb_spec (Query c "q") ""); [congruence|].
    now destruct (fetchGames _ _ _ _) as [r tr'].
Qed.

(** [fetchGameByID] has no path that returns a [nil] record without an
    error: whenever the error is [nil], the record is the one built from the
    decoded object, whatever its identifier. *)
Lemma fetchGameByID_never_nil (id : string) (tr : Trace) :
  fst (fetchGameByID To_LowerCase w id tr) <> Ok None.
Proof.
  unfold fetchGameByID.
  destruct (id =? "")%string; [discriminate|].
  destruct (validateURL _); [discriminate|].
  destruct (Getenv w "RAWG_API_KEY" =? "")%string; [discriminate|].
  unfold bind, wrap, ret, fail.
  destruct (makeRequest _ _ _) as [[resp|e] tr1]; [|discriminate].
  destruct (ReadAll_Body resp); [|discriminate].
  destruct (Unmarshal_RAWGGame _ _); discriminate.
Qed.

(** Hence the 404 branch of [getGameByID] is never taken. *)
Lemma getGameByID_never_404 (c : Context) (tr : Trace) :
  Status (fst (getGameByID To_LowerCase w c tr)) <> 404.
Proof.
  unfold getGameByID.
  pose proof (fetchGameByID_never_nil (Param c "id") tr) as H.
  destruct (fetchGameByID _ _ _ _) as [[[g|]|e] tr']; cbn in *; congruence.
Qed.

End ClientFacts.

(** ** The normalizer: store links *)

Section NormalizerFacts.

Variable To_LowerCase : Z -> Z.

Lemma map_bytes_lower_id (s : string) :
  some_byte isUpperByte s = false -> map_bytes lowerByte s = s.
Proof.
  induction s as [|c t IH]; cbn; [reflexivity|].
  intros H. apply orb_false_iff in H as [Hc Ht].
  rewrite (IH Ht). unfold lowerByte. now rewrite Hc.
Qed.

(** On an ASCII string [strings.ToLower] lower-cases byte by byte, and the
    Unicode case table is not consulted. *)
Lemma ToLower_ascii (s : string) :
  isASCII s = true -> ToLower To_LowerCase s = map_bytes lowerByte s.
Proof.
  intros H. unfold ToLower. rewrite H.
  destruct (some_byte isUpperByte s) eqn:E; cbn [negb]; [reflexivity|].
  symmetry. now apply map_bytes_lower_id.
Qed.

Lemma map_bytes_lower_eq (a b : string) :
  String.eqb (map_bytes lowerByte a) (map_bytes lowerByte b) = equalFoldASCII a b.
Proof.
  revert b; induction a as [|x a IH]; intros [|y b]; cbn; try reflexivity.
  rewrite <- IH. now destruct (Ascii.eqb (lowerByte x) (lowerByte y)).
Qed.







Lemma generateStoreURL_nonempty (storeName gameName : string) :
  generateStoreURL To_LowerCase storeName gameName <> "".
Proof.
  unfold generateStoreURL.
  repeat match goal with
  | |- context [if ?b then _ else _] => destruct b
  end; discriminate.
Qed.

Lemma getStores_map (stores : list RAWGStore.t) (gameName : string) :
  getStores To_LowerCase stores gameName
  = map (fun store => storeLink To_LowerCase store gameName) stores.
Proof. induction stores as [|s l IH]; cbn; [reflexivity | now rewrite IH]. Qed.

(** C2, as amended: for every provider store entry, the URL of the
    normalized store link is the one synthesized from the store name and the
    game title, whether or not the provider supplied a URL of its own (the
    provider's URL is never read); in all cases the URL is not empty. *)
Theorem getStores_always_synthesizes (stores : list RAWGStore.t) (gameName : string) :
  map Store.URL (getStores To_LowerCase stores gameName)
  = map (fun store => generateStoreURL To_LowerCase
                        (RAWGStoreDetail.Name (RAWGStore.Store store)) gameName)
        stores
  /\ Forall (fun link => Store.URL link <> "")
            (getStores To_LowerCase stores gameName).
Proof.
  split.
  - induction stores as [|s l IH]; cbn; [reflexivity | now rewrite IH].
  - induction stores as [|s l IH]; cbn; constructor; [|assumption].
    cbn. apply generateStoreURL_nonempty.
Qed.

End NormalizerFacts.

(** For an ASCII store name the synthesized URL does not depend on the
    Unicode case table. *)
Lemma generateStoreURL_ascii_any_table (tbl1 tbl2 : Z -> Z) (storeName gameName : string) :
  isASCII storeName = true ->
  generateStoreURL tbl1 storeName gameName = generateStoreURL tbl2 storeName gameName.
Proof.
  intros H. unfold generateStoreURL.
  now rewrite (ToLower_ascii tbl1 _ H), (ToLower_ascii tbl2 _ H).
Qed.

(** ** The rate limiter *)

Lemma int64_small (z : Z) : - 2 ^ 63 <= z < 2 ^ 63 -> int64 z = z.
Proof.
  intros H. unfold int64.
  rewrite Z.mod_small by lia. lia.
Qed.

Lemma int64_sub (a b : Z) : validClock a -> validClock b -> int64 (a - b) = a - b.
Proof. unfold validClock. intros Ha Hb. apply int64_small. lia. Qed.

(** The purge loop, read entry by entry: started on the accumulator [b], it
    deletes from [b] the keys whose entry in [m] is stale. *)
Lemma purge_fold_lookup (now : Z) (b m : gmap string Z) (k : string) :
  map_fold (fun key timestamp (acc : gmap string Z) =>
              if 60 <? int64 (now - timestamp) then delete key acc else acc) b m !! k
  = match m !! k with
    | Some t => if 60 <? int64 (now - t) then None else b !! k
    | None => b !! k
    end.
Proof.
  revert k.
  apply (map_fold_weak_ind (fun r m => forall k, r !! k =
    match m !! k with
    | Some t => if 60 <? int64 (now - t) then None else b !! k
    | None => b !! k
    end)).
  - intros k. now rewrite lookup_empty.
  - intros i x m' r Hi IH k.
    destruct (decide (i = k)) as [->|Hne].
    + rewrite lookup_insert_eq.
      destruct (60 <? int64 (now - x)).
      * now rewrite lookup_delete_eq.
      * rewrite IH, Hi. reflexivity.
    + rewrite lookup_insert_ne by assumption.
      destruct (60 <? int64 (now - x)).
      * rewrite lookup_delete_ne by assumption. apply IH.
      * apply IH.
Qed.

(** After the purge an entry is there exactly when it was there and is not
    more than 60 seconds old. *)
Lemma lookup_purge (now : Z) (l : gmap string Z) (k : string) :
  purge now l !! k
  = match l !! k with
    | Some t => if 60 <? int64 (now - t) then None else Some t
    | None => None
    end.
Proof.
  unfold purge. rewrite purge_fold_lookup.
  destruct (l !! k) as [t|] eqn:E; [|reflexivity].
  now destruct (60 <? int64 (now - t)).
Qed.

Lemma lookup_purge_Some (now : Z) (l : gmap string Z) (k : string) (t : Z) :
  purge now l !! k = Some t -> l !! k = Some t.
Proof.
  rewrite lookup_purge. destruct (l !! k) as [t'|]; [|discriminate].
  destruct (60 <? int64 (now - t')); [discriminate | tauto].
Qed.

Lemma purge_stale (l : gmap string Z) (now tk : Z) (k : string) :
  validClock now -> validClock tk ->
  l !! k = Some tk -> 60 < now - tk -> purge now l !! k = None.
Proof.
  intros Hnow Htk Hk Hold.
  rewrite lookup_purge, Hk, (int64_sub now tk Hnow Htk).
  destruct (Z.ltb_spec 60 (now - tk)); [reflexivity | lia].
Qed.

(** An entry the purge removes could as well not have been there. *)
Lemma purge_delete_stale (l : gmap string Z) (now : Z) (k : string) :
  purge now l !! k = None -> purge now (delete k l) = purge now l.
Proof.
  intros Hp. apply map_eq. intros j. rewrite (lookup_purge now (delete k l)).
  destruct (decide (k = j)) as [<-|Hne].
  - now rewrite lookup_delete_eq, Hp.
  - rewrite lookup_delete_ne by assumption. now rewrite lookup_purge.
Qed.

(** A request that is let through records its time. *)
Lemma rateLimiter_passes (l : gmap string Z) (now : Z) (c : Context) :
  fst (rateLimiter l now c) = Next ->
  snd (rateLimiter l now c) = <[ClientIP c := now]> (purge now l).
Proof.
  unfold rateLimiter.
  destruct (purge now l !! ClientIP c) as [t|]; cbn [andb].
  - destruct (int64 (now - t) <? 1); [discriminate | reflexivity].
  - reflexivity.
Qed.

(** A request that is refused gets the 429 response, and the map is only
    purged. *)
Lemma rateLimiter_rejects (l : gmap string Z) (now : Z) (c : Context)
      (code : Z) (obj : JSON) :
  fst (rateLimiter l now c) = AbortWithStatusJSON code obj ->
  code = 429 /\ obj = H_error "Too many requests"
  /\ snd (rateLimiter l now c) = purge now l
  /\ exists t, purge now l !! ClientIP c = Some t /\ int64 (now - t) < 1.
Proof.
  unfold rateLimiter.
  destruct (purge now l !! ClientIP c) as [t|]; cbn [andb].
  - destruct (Z.ltb_spec (int64 (now - t)) 1); [|discriminate].
    cbn. intros [= <- <-]. repeat split; eauto.
  - discriminate.
Qed.

(** The first request of a client is let through. *)
Lemma rateLimiter_first_request (l : gmap string Z) (now : Z) (c : Context) :
  l !! ClientIP c = None ->
  rateLimiter l now c = (Next, <[ClientIP c := now]> (purge now l)).
Proof.
  intros H. unfold rateLimiter. rewrite lookup_purge, H. reflexivity.
Qed.

(** The map only ever holds readings of the clock. *)
Lemma rateLimiter_keeps_clocksValid (l : gmap string Z) (now : Z) (c : Context) :
  validClock now -> clocksValid l -> clocksValid (snd (rateLimiter l now c)).
Proof.
  intros Hnow Hl k t.
  assert (Hp : forall j u, purge now l !! j = Some u -> validClock u)
    by (intros j u Hj; apply (Hl j), (lookup_purge_Some _ _ _ _ Hj)).
  unfold rateLimiter.
  destruct (purge now l !! ClientIP c) as [t'|]; cbn [andb].
  - destruct (int64 (now - t') <? 1); cbn [snd]; [apply Hp|].
    destruct (decide (ClientIP c = k)) as [<-|Hne].
    + rewrite lookup_insert_eq. now intros [= <-].
    + rewrite lookup_insert_ne by assumption. apply Hp.
  - cbn [snd]. destruct (decide (ClientIP c = k)) as [<-|Hne].
    + rewrite lookup_insert_eq. now intros [= <-].
    + rewrite lookup_insert_ne by assumption. apply Hp.
Qed.

Lemma rateLimiter_within_second (l : gmap string Z) (now t : Z) (c : Context) :
  validClock now -> validClock t ->
  l !! ClientIP c = Some t -> now - t < 1 ->
  rateLimiter l now c = (tooMany, purge now l)
  /\ purge now l !! ClientIP c = Some t.
Proof.
  intros Hnow Ht Hl Hlt.
  assert (Hd : int64 (now - t) = now - t) by now apply int64_sub.
  assert (Hp : purge now l !! ClientIP c = Some t).
  { rewrite lookup_purge, Hl, Hd.
    destruct (Z.ltb_spec 60 (now - t)); [lia | reflexivity]. }
  split; [|assumption].
  unfold rateLimiter. rewrite Hp. cbn [andb]. rewrite Hd.
  destruct (Z.ltb_spec (now - t) 1); [reflexivity | lia].
Qed.

Lemma rateLimiter_after_second (l : gmap string Z) (now t : Z) (c : Context) :
  validClock now -> validClock t ->
  l !! ClientIP c = Some t -> 1 <= now - t ->
  rateLimiter l now c = (Next, <[ClientIP c := now]> (purge now l)).
Proof.
  intros Hnow Ht Hl Hge.
  assert (Hd : int64 (now - t) = now - t) by now apply int64_sub.
  unfold rateLimiter. rewrite lookup_purge, Hl, Hd.
  destruct (60 <? now - t); cbn [andb]; [reflexivity|].
  rewrite Hd. destruct (Z.ltb_spec (now - t) 1); [lia | reflexivity].
Qed.

(** A refusal by the rate limiter ends the chain: the response is the 429
    and the route handler is not run. *)
Lemma serve_rate_limited (h : Handler) (st : Server) (now : Z) (c : Context) :
  fst (rateLimiter (limiter st) now c) = tooMany ->
  serve h st now c
  = (mkResponse 429 (H_error "Too many requests"),
     mkServer (purge now (limiter st)) (trace st)).
Proof.
  intros H. unfold serve.
  destruct (rateLimiter_rejects _ _ _ _ _ H) as (_ & _ & Hs & _).
  destruct (rateLimiter (limiter st) now c) as [o l']. cbn [fst snd] in *.
  now subst.
Qed.

(** The clock reading of an instant before the end of second [t] is at most
    [t], and that of an instant after it is at least [t + 1]. *)
Lemma Unix_before (a t : Z) : a < (t + 1) * second -> Unix a - t < 1.
Proof.
  intros H. unfold Unix.
  assert (a / second < t + 1); [|lia].
  apply Z.div_lt_upper_bound; unfold second in *; lia.
Qed.

Lemma Unix_after (a t : Z) : (t + 1) * second <= a -> 1 <= Unix a - t.
Proof.
  intros H. unfold Unix.
  assert (t + 1 <= a / second); [|lia].
  apply Z.div_le_lower_bound; unfold second in *; lia.
Qed.

(** Two instants at least [n] seconds apart have readings at least [n]
    apart. *)
Lemma Unix_apart (a1 a2 n : Z) :
  n * second <= a2 - a1 -> n <= Unix a2 - Unix a1.
Proof.
  intros H. unfold Unix, second in *.
  Z.to_euclidean_division_equations. lia.
Qed.

(** C4, as amended: the handler reads the clock in whole seconds.  For a
    request handled at the instant [a], with [now = Unix a]: if the client's
    recorded second [t] is the current one or a later one ([now - t < 1]) the
    request is refused with 429 and nothing downstream runs; if the current
    second is a later one ([1 <= now - t]) the request is let through; an
    entry recorded more than 60 seconds before [now] is removed by the check
    of any client, and the next request of its own client is handled exactly
    as if the client had never been seen.  For two requests of one client at
    the instants [a1] and [a]: the second is refused when both fall in the
    same clock second, and let through when it comes 1 second or more after
    the first; and an entry is purged when the check comes 61 seconds or more
    after the request it records. *)
Theorem rateLimiter_one_per_clock_second (l : gmap string Z) (a : Z) (c : Context) :
  let now := Unix a in
  validClock now -> clocksValid l ->
  (forall t, l !! ClientIP c = Some t -> now - t < 1 ->
     fst (rateLimiter l now c) = tooMany
     /\ forall (h : Handler) (tr : Trace),
          serve h (mkServer l tr) now c
          = (mkResponse 429 (H_error "Too many requests"),
             mkServer (purge now l) tr))
  /\ (forall t, l !! ClientIP c = Some t -> 1 <= now - t ->
        fst (rateLimiter l now c) = Next)
  /\ (forall (k : string) (tk : Z),
        l !! k = Some tk -> 60 < now - tk ->
        (k <> ClientIP c -> snd (rateLimiter l now c) !! k = None)
        /\ (k = ClientIP c ->
            rateLimiter l now c = rateLimiter (delete k l) now c
            /\ fst (rateLimiter l now c) = Next))
  /\ (forall a1, validClock (Unix a1) ->
        fst (rateLimiter l (Unix a1) c) = Next ->
        (Unix a = Unix a1 ->
         fst (rateLimiter (snd (rateLimiter l (Unix a1) c)) now c) = tooMany)
        /\ (1 * second <= a - a1 ->
            fst (rateLimiter (snd (rateLimiter l (Unix a1) c)) now c) = Next))
  /\ (forall (k : string) (a0 : Z),
        l !! k = Some (Unix a0) -> 61 * second <= a - a0 ->
        purge now l !! k = None).
Proof.
  intros now Hnow Hl. split; [|split; [|split; [|split]]].
  - intros t Ht Hlt.
    destruct (rateLimiter_within_second l now t c Hnow (Hl _ _ Ht) Ht Hlt) as [Hr _].
    split; [now rewrite Hr|].
    intros h tr. apply serve_rate_limited. cbn [limiter]. now rewrite Hr.
  - intros t Ht Hge.
    now rewrite (rateLimiter_after_second l now t c Hnow (Hl _ _ Ht) Ht Hge).
  - intros k tk Hk Hold.
    pose proof (purge_stale l now tk k Hnow (Hl _ _ Hk) Hk Hold) as Hp.
    split.
    + intros Hne. unfold rateLimiter.
      destruct (purge now l !! ClientIP c) as [t'|]; cbn [andb].
      * destruct (int64 (now - t') <? 1); cbn [snd];
          [assumption | now rewrite lookup_insert_ne].
      * cbn [snd]. now rewrite lookup_insert_ne.
    + intros ->. unfold rateLimiter.
      rewrite (purge_delete_stale l now (ClientIP c) Hp), Hp. split; reflexivity.
  - intros a1 Ha1 Hfirst.
    assert (H1 : snd (rateLimiter l (Unix a1) c) !! ClientIP c = Some (Unix a1))
      by (rewrite (rateLimiter_passes l (Unix a1) c Hfirst); apply lookup_insert_eq).
    split.
    + intros Hsame.
      assert (Hlt : now - Unix a1 < 1) by (unfold now; lia).
      now destruct (rateLimiter_within_second _ now (Unix a1) c Hnow Ha1 H1 Hlt)
        as [-> _].
    + intros Hge. pose proof (Unix_apart a1 a 1 Hge) as Hge'.
      now rewrite (rateLimiter_after_second _ now (Unix a1) c Hnow Ha1 H1 Hge').
  - intros k a0 Hk Hold. pose proof (Unix_apart a0 a 61 Hold) as Hold'.
    apply (purge_stale l now (Unix a0) k Hnow (Hl _ _ Hk) Hk). unfold now. lia.
Qed.

(** Requests within the second of the recorded one leave the record alone. *)
Lemma attempts_within_second (l : gmap string Z) (c : Context) (t : Z)
      (nows : list Z) :
  validClock t ->
  Forall (fun n => validClock n /\ n - t < 1) nows ->
  l !! ClientIP c = Some t ->
  attempts l c nows !! ClientIP c = Some t.
Proof.
  intros Ht Hall. revert l.
  induction Hall as [|n rest [Hn Hlt] _ IH]; intros l Hl; [assumption|].
  cbn [attempts]. apply IH.
  destruct (rateLimiter_within_second l n t c Hn Ht Hl Hlt) as [-> Hp].
  assumption.
Qed.

(** C10: when the rate limiter refuses a request, the entry of the refused
    client is what it was; in particular, when the client's recorded
    timestamp is [t] and a request arrives less than 1 second after [t] (at
    an instant [a] before the end of second [t]), the request is refused and
    the entry is still [t]; so after any run of such refused requests the
    client is let through as soon as 1 second has passed since [t]. *)
Theorem rejection_keeps_timestamp (l : gmap string Z) (a : Z) (c : Context) :
  (forall code obj,
     fst (rateLimiter l (Unix a) c) = AbortWithStatusJSON code obj ->
     snd (rateLimiter l (Unix a) c) !! ClientIP c = l !! ClientIP c)
  /\ (forall t, validClock (Unix a) -> validClock t ->
        l !! ClientIP c = Some t -> a < (t + 1) * second ->
        fst (rateLimiter l (Unix a) c) = tooMany
        /\ snd (rateLimiter l (Unix a) c) !! ClientIP c = Some t)
  /\ (forall t arrivals a', validClock t -> validClock (Unix a') ->
        Forall (fun x => validClock (Unix x) /\ x < (t + 1) * second) arrivals ->
        l !! ClientIP c = Some t -> (t + 1) * second <= a' ->
        attempts l c (map Unix arrivals) !! ClientIP c = Some t
        /\ fst (rateLimiter (attempts l c (map Unix arrivals)) (Unix a') c) = Next).
Proof.
  split; [|split].
  - intros code obj Hrej.
    destruct (rateLimiter_rejects l (Unix a) c code obj Hrej)
      as (_ & _ & -> & t & Hp & _).
    rewrite Hp. symmetry. now apply (lookup_purge_Some (Unix a)).
  - intros t Hnow Ht Hl Hlt.
    destruct (rateLimiter_within_second l (Unix a) t c Hnow Ht Hl
                (Unix_before a t Hlt)) as [-> Hp].
    split; [reflexivity | assumption].
  - intros t arrivals a' Ht Hnow' Hall Hl Hge.
    assert (Hall' : Forall (fun n => validClock n /\ n - t < 1) (map Unix arrivals)).
    { induction Hall as [|x rest [Hx Hlt] _ IH]; cbn [map]; constructor;
        [split; [assumption | now apply Unix_before] | assumption]. }
    pose proof (attempts_within_second l c t _ Ht Hall' Hl) as Ha.
    split; [assumption|].
    now rewrite (rateLimiter_after_second _ (Unix a') t c Hnow' Ht Ha
                   (Unix_after a' t Hge)).
Qed.

(** ** The input validator *)

Lemma some_byte_occurs (p : ascii -> bool) (s : string) :
  some_byte p s = true <-> exists ch, occurs ch s /\ p ch = true.
Proof.
  induction s as [|c t IH]; cbn.
  - split; [discriminate | intros (? & [] & _)].
  - rewrite orb_true_iff, IH. split.
    + intros [H|(ch & H1 & H2)]; [exists c | exists ch]; tauto.
    + intros (ch & [->|H1] & H2); [tauto | right; eauto].
Qed.

Lemma ContainsByte_occurs (s : string) (ch : ascii) :
  ContainsByte s ch = true <-> occurs ch s.
Proof.
  unfold ContainsByte. rewrite some_byte_occurs. split.
  - intros (x & Hx & He). apply Ascii.eqb_eq in He. now subst.
  - intros H. exists ch. split; [assumption | apply Ascii.eqb_refl].
Qed.

Lemma ContainsAny_refused (param : string) :
  ContainsAny param refusedChars = true <-> hasRefusedChar param.
Proof.
  unfold ContainsAny, hasRefusedChar. rewrite some_byte_occurs.
  split; intros (ch & H1 & H2); exists ch; split; try assumption;
    now apply ContainsByte_occurs.
Qed.

(** The loop over the parameter names finds a refused character exactly
    when some parameter of the query has one in its name. *)
Lemma paramNames_refused (c : Context) :
  existsb (fun param => ContainsAny param refusedChars) (paramNames c) = true
  <-> exists param, is_Some (URL_Query c !! param) /\ hasRefusedChar param.
Proof.
  unfold paramNames. rewrite existsb_exists. split.
  - intros (param & Hin & Hc). exists param.
    split; [|now apply ContainsAny_refused].
    apply in_map_iff in Hin as ([k v] & <- & Hkv).
    apply list_elem_of_In, elem_of_map_to_list in Hkv. cbn. eauto.
  - intros (param & [v Hv] & Hc). exists param.
    split; [|now apply ContainsAny_refused].
    apply in_map_iff. exists (param, v). split; [reflexivity|].
    now apply list_elem_of_In, elem_of_map_to_list.
Qed.

(** C8, as amended: [validateInput] applies three checks in this order, and
    the first that fails decides the response: a raw query string of more
    than 1024 bytes is refused with 400; otherwise a [POST] whose
    [Content-Type] is not [application/json] is refused with 415; otherwise a
    request with a query parameter whose name contains one of
    [< > { } [ ] \] is refused with 400; every other request is passed on. *)
Theorem validateInput_ordered_checks (c : Context) :
  let len := Z.of_nat (String.length (RawQuery c)) in
  let badType := isPOST c /\ GetHeader c "Content-Type" <> "application/json" in
  let badName :=
    exists param, is_Some (URL_Query c !! param) /\ hasRefusedChar param in
  (1024 < len ->
   validateInput c = AbortWithStatusJSON 400 (H_error "Query string too long"))
  /\ (len <= 1024 -> badType ->
      validateInput c = AbortWithStatusJSON 415 (H_error "Unsupported Media Type"))
  /\ (len <= 1024 -> ~ badType -> badName ->
      validateInput c
      = AbortWithStatusJSON 400 (H_error "Invalid characters in parameters"))
  /\ (len <= 1024 -> ~ badType -> ~ badName -> validateInput c = Next).
Proof.
  intros len badType badName.
  assert (Hty : nonJSONPost c = true <-> badType).
  { unfold nonJSONPost, badType, isPOST.
    rewrite andb_true_iff, negb_true_iff, String.eqb_eq, String.eqb_neq. tauto. }
  pose proof (paramNames_refused c) as Hnm. fold badName in Hnm.
  unfold validateInput. fold len. fold (nonJSONPost c). fold (paramNames c).
  destruct (Z.ltb_spec 1024 len) as [Hlen|Hlen].
  - split; [reflexivity | repeat split; intros; lia].
  - split; [intros; lia|].
    destruct (nonJSONPost c).
    + split; [reflexivity | split; intros; tauto].
    + assert (~ badType) by (rewrite <- Hty; discriminate).
      split; [tauto|].
      destruct (existsb _ (paramNames c)).
      * split; [reflexivity | intros; tauto].
      * assert (~ badName) by (rewrite <- Hnm; discriminate).
        split; [tauto | reflexivity].
Qed.

(** A refusal by the input validator ends the chain as well. *)
Lemma serve_validateInput_abort (h : Handler) (st : Server) (now : Z)
      (c : Context) (code : Z) (obj : JSON) :
  fst (rateLimiter (limiter st) now c) = Next ->
  validateInput c = AbortWithStatusJSON code obj ->
  serve h st now c
  = (mkResponse code obj, mkServer (<[ClientIP c := now]> (purge now (limiter st))) (trace st)).
Proof.
  intros Hr Hv. unfold serve.
  pose proof (rateLimiter_passes _ _ _ Hr) as Hs.
  destruct (rateLimiter (limiter st) now c) as [o l']. cbn [fst snd] in *.
  subst. now rewrite Hv.
Qed.

(** * The claims at concrete inputs *)

(** ** The definitions at work *)

Example validateURL_search : validateURL "/games?search=half-life_2&page=1" = None.
Proof. vm_compute. reflexivity. Qed.

Example validateURL_semicolon :
  validateURL "/games;DROP" = Some "invalid characters in endpoint".
Proof. vm_compute. reflexivity. Qed.

Example validateURL_relative :
  validateURL "games" = Some "endpoint must start with /".
Proof. vm_compute. reflexivity. Qed.

(** The two bytes of a letter outside ASCII are dropped by the mapping. *)
Example validateURL_non_ascii :
  validateURL ("/caf" +:+ String (to_byte 0xC3) (String (to_byte 0xA9) ""))
  = Some "invalid characters in endpoint".
Proof. vm_compute. reflexivity. Qed.

Example generateStoreURL_steam (tbl : Z -> Z) :
  generateStoreURL tbl "STEAM" "Half-Life 2: Episode One"
  = "https://store.steampowered.com/search/?term=Half-Life+2%3A+Episode+One".
Proof. vm_compute. reflexivity. Qed.

Example generateStoreURL_unknown (tbl : Z -> Z) :
  generateStoreURL tbl "itch.io" "Celeste"
  = "https://www.google.com/search?q=buy+Celeste+game".
Proof. vm_compute. reflexivity. Qed.

Example getStores_steamEntry (tbl : Z -> Z) :
  getStores tbl [steamEntry] "Portal 2"
  = [Store.mk 1 "Steam" "https://store.steampowered.com/search/?term=Portal+2" ""].
Proof. vm_compute. reflexivity. Qed.

Example rateLimiter_three_requests :
  let c := plainGET ∅ in
  let '(o1, l1) := rateLimiter ∅ (Unix 1000200000000) c in
  let '(o2, l2) := rateLimiter l1 (Unix 1000700000000) c in
  let '(o3, l3) := rateLimiter l2 (Unix 1001100000000) c in
  (o1, o2, o3) = (Next, tooMany, Next)
  /\ l2 !! "203.0.113.7" = Some 1000 /\ l3 !! "203.0.113.7" = Some 1001.
Proof. vm_compute. repeat split. Qed.

(** ** Single-record lookup of a game the upstream does not have *)

(** C1 (the code departs from the claim): the upstream answers the lookup of
    game 999999 with an object whose identifier is absent, which decodes to
    the zero record.  [fetchGameByID] returns a record with identifier "0"
    and no error, and [getGameByID] responds 200 with that record, not 404. *)
Theorem getGameByID_zero_identifier (tbl : Z -> Z) :
  fetchGameByID tbl notFoundWorld "999999" []
  = (Ok (Some (toGame tbl zeroGame)),
     ["https://api.rawg.io/api/games/999999?key=secret"])
  /\ Game.ID (toGame tbl zeroGame) = "0"
  /\ getGameByID tbl notFoundWorld getMissingGame []
     = (mkResponse 200 (JSON_Game (toGame tbl zeroGame)),
        ["https://api.rawg.io/api/games/999999?key=secret"]).
Proof.
  assert (H : fetchGameByID tbl notFoundWorld "999999" []
              = (Ok (Some (toGame tbl zeroGame)),
                 ["https://api.rawg.io/api/games/999999?key=secret"]))
    by (vm_compute; reflexivity).
  split; [exact H|]. split; [reflexivity|].
  unfold getGameByID.
  change (Param getMissingGame "id") with "999999".
  now rewrite H.
Qed.

(** ** Sample states of the rate limiter *)

Lemma validClock_small (t : Z) : 0 <= t < 2 ^ 31 -> validClock t.
Proof. unfold validClock. lia. Qed.

Lemma clocksValid_empty : clocksValid ∅.
Proof. intros k t H. rewrite lookup_empty in H. discriminate H. Qed.

Lemma clocksValid_insert (l : gmap string Z) (k : string) (t : Z) :
  validClock t -> clocksValid l -> clocksValid (<[k := t]> l).
Proof.
  intros Ht Hl j u. destruct (decide (k = j)) as [<-|Hne].
  - rewrite lookup_insert_eq. now intros [= <-].
  - rewrite lookup_insert_ne by assumption. apply Hl.
Qed.

Lemma clocksValid_twoClients : clocksValid twoClients.
Proof.
  unfold twoClients, oneClient.
  apply clocksValid_insert; [apply validClock_small; lia|].
  rewrite <- insert_empty.
  apply clocksValid_insert; [apply validClock_small; lia | apply clocksValid_empty].
Qed.

Lemma clocksValid_oneClient : clocksValid oneClient.
Proof.
  unfold oneClient. rewrite <- insert_empty.
  apply clocksValid_insert; [apply validClock_small; lia | apply clocksValid_empty].
Qed.

(** ** Counterexamples *)

(** C2, as stated, fails: the Steam entry comes with a URL of its own, and
    the normalized link carries the synthesized search URL instead. *)
Lemma getStores_drops_provider_URL :
  ~ (forall (tbl : Z -> Z) (store : RAWGStore.t) (gameName : string),
       RAWGStoreDetail.URL (RAWGStore.Store store) <> "" ->
       Store.URL (storeLink tbl store gameName)
       = RAWGStoreDetail.URL (RAWGStore.Store store)).
Proof.
  intros H.
  assert (Hne : RAWGStoreDetail.URL (RAWGStore.Store steamEntry) <> "")
    by discriminate.
  specialize (H noCaseTable steamEntry "Portal 2" Hne).
  vm_compute in H. discriminate H.
Qed.

(** C4, as stated, fails: two requests of one client 0.2 seconds apart, at
    0.9 s and at 1.1 s, fall in two clock seconds, and both are let through. *)
Lemma rateLimiter_lets_through_across_seconds :
  ~ (forall (l : gmap string Z) (c : Context) (a1 a2 : Z),
       clocksValid l -> validClock (Unix a1) -> validClock (Unix a2) ->
       a1 <= a2 -> a2 - a1 < 1 * second ->
       fst (rateLimiter l (Unix a1) c) = Next ->
       fst (rateLimiter (snd (rateLimiter l (Unix a1) c)) (Unix a2) c) = tooMany).
Proof.
  intros H.
  assert (H0 : validClock (Unix 900000000)) by (apply validClock_small; now vm_compute).
  assert (H1 : validClock (Unix 1100000000)) by (apply validClock_small; now vm_compute).
  assert (H2 : 1100000000 - 900000000 < 1 * second) by (unfold second; lia).
  specialize (H ∅ (plainGET ∅) 900000000 1100000000 clocksValid_empty H0 H1
                ltac:(lia) H2 eq_refl).
  vm_compute in H. discriminate H.
Qed.

(** C7, as stated, fails: no store-filter parameter follows
    [key=<key>&page_size=20] in the URL built for [/games]. *)
Lemma collectionURL_has_no_store_filter :
  ~ (exists filter, filter <> ""
       /\ forall apiKey endpoint, validateURL endpoint = None ->
            collectionURL apiKey endpoint
            = claimedCollectionURL filter apiKey endpoint).
Proof.
  intros (filter & Hne & H).
  assert (Hv : validateURL "/games" = None) by (vm_compute; reflexivity).
  specialize (H "secret" "/games" Hv).
  change (collectionURL "secret" "/games")
    with ("https://api.rawg.io/api/games?key=secret&page_size=20" +:+ "") in H.
  change (claimedCollectionURL filter "secret" "/games")
    with ("https://api.rawg.io/api/games?key=secret&page_size=20" +:+ filter) in H.
  apply (f_equal String.length) in H. rewrite !length_append in H.
  destruct filter; [congruence | cbn [String.length] in H; lia].
Qed.

(** The first revision of the client appends the store filter, but chooses
    the separator by the endpoint's name and last character: on an endpoint
    without [?] other than the three it lists, it joins with [&]. *)
Lemma legacy_collectionURL_separator :
  Legacy.collectionURL "secret" "/games"
  = claimedCollectionURL storeFilter "secret" "/games"
  /\ Legacy.collectionURL "secret" "/games/upcoming"
     = "https://api.rawg.io/api/games/upcoming&key=secret&page_size=20&stores=1,2,3,4,5,6,7,8,9,10,11"
  /\ Legacy.collectionURL "secret" "/games/upcoming"
     <> claimedCollectionURL storeFilter "secret" "/games/upcoming".
Proof. repeat split; try reflexivity. vm_compute. discriminate. Qed.

(** C8, as stated, fails: a [POST] with [Content-Type: text/plain] and a
    query string of 1025 bytes is refused with 400, not 415. *)
Lemma plain_post_long_query_gets_400 :
  ~ (forall c : Context,
       isPOST c -> GetHeader c "Content-Type" <> "application/json" ->
       exists obj, validateInput c = AbortWithStatusJSON 415 obj).
Proof.
  intros H.
  destruct (H plainPostLongQuery) as [obj Hobj]; [reflexivity | discriminate |].
  assert (Hv : validateInput plainPostLongQuery
               = AbortWithStatusJSON 400 (H_error "Query string too long"))
    by (vm_compute; reflexivity).
  rewrite Hv in Hobj. discriminate Hobj.
Qed.

(** ** Instances of the theorems *)

(** C5 at [/games;DROP] and at [/games?search=zelda]. *)
Lemma fetchGames_rejects_invalid_endpoint_witness :
  (exists e, fetchGames noCaseTable notFoundWorld "/games;DROP" [] = (Err e, [])
             /\ isInvalidEndpoint e = true)
  /\ validateURL "/games?search=zelda" = None.
Proof.
  split.
  - destruct (fetchGames_rejects_invalid_endpoint noCaseTable notFoundWorld
                "/games;DROP" []) as [H _].
    apply H. right. vm_compute. reflexivity.
  - destruct (fetchGames_rejects_invalid_endpoint noCaseTable notFoundWorld
                "/games?search=zelda" []) as [_ H].
    apply H; vm_compute; reflexivity.
Defined.


(** C6 in a world without the key, at [/games] and at the identifier 3498. *)
Lemma missing_credential_fails_fast_witness :
  fetchGames noCaseTable noKeyWorld "/games" [] = (Err MissingCredential, [])
  /\ fetchGameByID noCaseTable noKeyWorld "3498" [] = (Err MissingCredential, []).
Proof.
  destruct (missing_credential_fails_fast noCaseTable noKeyWorld [] eq_refl)
    as [H1 H2].
  split.
  - apply H1. vm_compute. reflexivity.
  - apply H2; [discriminate | vm_compute; reflexivity].
Defined.

(** C7, as amended, at [/games?ordering=-rating] with the key [secret]. *)
Lemma fetchGames_outbound_URL_witness :
  collectionURL "secret" "/games?ordering=-rating"
  = "https://api.rawg.io/api/games?ordering=-rating&key=secret&page_size=20"
  /\ snd (fetchGames noCaseTable notFoundWorld "/games?ordering=-rating" [])
     = ["https://api.rawg.io/api/games?ordering=-rating&key=secret&page_size=20"].
Proof.
  apply (fetchGames_outbound_URL noCaseTable notFoundWorld "secret"
           "/games?ordering=-rating" []).
  - vm_compute. reflexivity.
  - reflexivity.
  - discriminate.
  - reflexivity.
  - reflexivity.
Defined.

(** C9 without a query, and with the query [zelda]. *)
Lemma searchGames_requires_query_witness :
  searchGames noCaseTable notFoundWorld (plainGET ∅) []
  = (mkResponse 400 (H_error "Search query is required"), [])
  /\ searchGames noCaseTable notFoundWorld (plainGET {["q" := ["zelda"]]}) []
     = (handleResponse
          (fst (fetchGames noCaseTable notFoundWorld
                  ("/games?search=" +:+ Query (plainGET {["q" := ["zelda"]]}) "q") [])),
        snd (fetchGames noCaseTable notFoundWorld
               ("/games?search=" +:+ Query (plainGET {["q" := ["zelda"]]}) "q") [])).
Proof.
  split.
  - destruct (searchGames_requires_query noCaseTable notFoundWorld (plainGET ∅) [])
      as [H _].
    apply H. left. reflexivity.
  - destruct (searchGames_requires_query noCaseTable notFoundWorld
                (plainGET {["q" := ["zelda"]]}) []) as [_ H].
    apply H. intros Hq. vm_compute in Hq. discriminate Hq.
Defined.

(** C4, as amended, for the client recorded at second 1000: refused at
    1000.5 s, let through at 1001.5 s; the other client's entry of second 900
    is purged by a check at 1000.5 s; a first request at 1000.2 s followed by
    one at 1000.7 s, or by one at 1001.2 s; and the client's own entry, stale
    at 1061.5 s and purged by a check 61 s after the recorded request. *)
Lemma rateLimiter_one_per_clock_second_witness :
  fst (rateLimiter oneClient (Unix 1000500000000) (plainGET ∅)) = tooMany
  /\ fst (rateLimiter oneClient (Unix 1001500000000) (plainGET ∅)) = Next
  /\ snd (rateLimiter twoClients (Unix 1000500000000) (plainGET ∅)) !! "198.51.100.2"
     = None
  /\ fst (rateLimiter (snd (rateLimiter ∅ (Unix 1000200000000) (plainGET ∅)))
            (Unix 1000700000000) (plainGET ∅)) = tooMany
  /\ fst (rateLimiter (snd (rateLimiter ∅ (Unix 1000200000000) (plainGET ∅)))
            (Unix 1001200000000) (plainGET ∅)) = Next
  /\ (rateLimiter oneClient (Unix 1061500000000) (plainGET ∅)
      = rateLimiter (delete "203.0.113.7" oneClient) (Unix 1061500000000) (plainGET ∅)
      /\ fst (rateLimiter oneClient (Unix 1061500000000) (plainGET ∅)) = Next)
  /\ purge (Unix 1061000000000) oneClient !! "203.0.113.7" = None.
Proof.
  assert (Hsmall : forall x, 0 <= x < 2 ^ 31 * second -> validClock (Unix x)).
  { intros x Hx. apply validClock_small. unfold Unix, second in *.
    Z.to_euclidean_division_equations. lia. }
  split; [|split; [|split; [|split; [|split; [|split]]]]].
  - destruct (rateLimiter_one_per_clock_second oneClient 1000500000000 (plainGET ∅))
      as (H & _); [apply Hsmall; unfold second; lia | apply clocksValid_oneClient |].
    apply (H 1000); [reflexivity | vm_compute; reflexivity].
  - destruct (rateLimiter_one_per_clock_second oneClient 1001500000000 (plainGET ∅))
      as (_ & H & _); [apply Hsmall; unfold second; lia | apply clocksValid_oneClient |].
    apply (H 1000); [reflexivity | vm_compute; discriminate].
  - destruct (rateLimiter_one_per_clock_second twoClients 1000500000000 (plainGET ∅))
      as (_ & _ & H & _); [apply Hsmall; unfold second; lia | apply clocksValid_twoClients |].
    apply (H "198.51.100.2" 900); [reflexivity | vm_compute; reflexivity | discriminate].
  - destruct (rateLimiter_one_per_clock_second ∅ 1000700000000 (plainGET ∅))
      as (_ & _ & _ & H & _); [apply Hsmall; unfold second; lia | apply clocksValid_empty |].
    apply (H 1000200000000);
      [apply Hsmall; unfold second; lia | reflexivity | reflexivity].
  - destruct (rateLimiter_one_per_clock_second ∅ 1001200000000 (plainGET ∅))
      as (_ & _ & _ & H & _); [apply Hsmall; unfold second; lia | apply clocksValid_empty |].
    apply (H 1000200000000);
      [apply Hsmall; unfold second; lia | reflexivity | vm_compute; discriminate].
  - destruct (rateLimiter_one_per_clock_second oneClient 1061500000000 (plainGET ∅))
      as (_ & _ & H & _); [apply Hsmall; unfold second; lia | apply clocksValid_oneClient |].
    apply (H "203.0.113.7" 1000); [reflexivity | vm_compute; reflexivity | reflexivity].
  - destruct (rateLimiter_one_per_clock_second oneClient 1061000000000 (plainGET ∅))
      as (_ & _ & _ & _ & H); [apply Hsmall; unfold second; lia | apply clocksValid_oneClient |].
    apply (H "203.0.113.7" 1000000000000); [reflexivity | vm_compute; discriminate].
Defined.

(** C10 for the client recorded at second 1000: a request refused at
    1000.5 s leaves the entry at 1000, and after two refused requests the
    client is let through at 1001 s. *)
Lemma rejection_keeps_timestamp_witness :
  snd (rateLimiter oneClient (Unix 1000500000000) (plainGET ∅)) !! "203.0.113.7"
  = oneClient !! "203.0.113.7"
  /\ (fst (rateLimiter oneClient (Unix 1000500000000) (plainGET ∅)) = tooMany
      /\ snd (rateLimiter oneClient (Unix 1000500000000) (plainGET ∅)) !! "203.0.113.7"
         = Some 1000)
  /\ (attempts oneClient (plainGET ∅) (map Unix [1000300000000; 1000900000000])
        !! "203.0.113.7" = Some 1000
      /\ fst (rateLimiter
                (attempts oneClient (plainGET ∅)
                   (map Unix [1000300000000; 1000900000000]))
                (Unix 1001000000000) (plainGET ∅)) = Next).
Proof.
  assert (Hsmall : forall x, 0 <= x < 2 ^ 31 * second -> validClock (Unix x)).
  { intros x Hx. apply validClock_small. unfold Unix, second in *.
    Z.to_euclidean_division_equations. lia. }
  assert (H1000 : validClock 1000) by (apply validClock_small; lia).
  destruct (rejection_keeps_timestamp oneClient 1000500000000 (plainGET ∅))
    as (Ha & Hb & _).
  destruct (rejection_keeps_timestamp oneClient 0 (plainGET ∅)) as (_ & _ & Hc).
  split; [|split].
  - apply (Ha 429 (H_error "Too many requests")). vm_compute. reflexivity.
  - apply (Hb 1000);
      [apply Hsmall; unfold second; lia | assumption | reflexivity
      | vm_compute; reflexivity].
  - apply (Hc 1000 [1000300000000; 1000900000000] 1001000000000);
      [assumption | apply Hsmall; unfold second; lia | | reflexivity
      | vm_compute; discriminate].
    repeat constructor; try (apply Hsmall; unfold second; lia).
Defined.

(** C8, as amended, at a long query, at a [text/plain] [POST], at a
    parameter named [a<b], and at a plain [GET]. *)
Lemma validateInput_ordered_checks_witness :
  validateInput longQueryGET
  = AbortWithStatusJSON 400 (H_error "Query string too long")
  /\ validateInput plainPost
     = AbortWithStatusJSON 415 (H_error "Unsupported Media Type")
  /\ validateInput badNameGET
     = AbortWithStatusJSON 400 (H_error "Invalid characters in parameters")
  /\ validateInput (plainGET ∅) = Next.
Proof.
  assert (Hget : forall c, Method c = "GET" ->
            ~ (isPOST c /\ GetHeader c "Content-Type" <> "application/json")).
  { intros c Hc [Hp _]. unfold isPOST in Hp. congruence. }
  split; [|split; [|split]].
  - destruct (validateInput_ordered_checks longQueryGET) as (H & _).
    apply H. vm_compute. reflexivity.
  - destruct (validateInput_ordered_checks plainPost) as (_ & H & _).
    apply H; [vm_compute; discriminate | split; [reflexivity | discriminate]].
  - destruct (validateInput_ordered_checks badNameGET) as (_ & _ & H & _).
    apply H; [vm_compute; discriminate | now apply Hget |].
    exists "a<b". split; [eexists; reflexivity|].
    exists "<"%char. split; vm_compute; [right; left; reflexivity | left; reflexivity].
  - destruct (validateInput_ordered_checks (plainGET ∅)) as (_ & _ & _ & H).
    apply H; [vm_compute; discriminate | now apply Hget |].
    intros (param & [v Hv] & _). cbn in Hv. rewrite lookup_empty in Hv.
    discriminate Hv.
Defined.

(** * Further properties of the code *)

(** ** Strings *)

Lemma all_bytes_append (p : ascii -> bool) (a b : string) :
  all_bytes p (a +:+ b) = all_bytes p a && all_bytes p b.
Proof.
  induction a as [|x a IH]; [reflexivity|].
  change (String x a +:+ b) with (String x (a +:+ b)).
  cbn [all_bytes]. rewrite IH. apply andb_assoc.
Qed.

Lemma validateURL_under_games (id : string) :
  validateURL ("/games/" +:+ id) = None <-> onlyAllowed id = true.
Proof.
  rewrite validateURL_nil_iff. unfold onlyAllowed.
  rewrite all_bytes_append.
  change (HasPrefix ("/games/" +:+ id) "/") with true.
  change (all_bytes allowedChar "/games/") with true.
  cbn [andb]. tauto.
Qed.

Lemma validateURL_under_search (q : string) :
  validateURL ("/games?search=" +:+ q) = None <-> onlyAllowed q = true.
Proof.
  rewrite validateURL_nil_iff. unfold onlyAllowed.
  rewrite all_bytes_append.
  change (HasPrefix ("/games?search=" +:+ q) "/") with true.
  change (all_bytes allowedChar "/games?search=") with true.
  cbn [andb]. tauto.
Qed.

(** An endpoint that starts with [/] and fails validation fails with the
    message about its characters. *)
Lemma validateURL_slash_invalid (endpoint : string) :
  HasPrefix endpoint "/" = true -> onlyAllowed endpoint = false ->
  validateURL endpoint = Some "invalid characters in endpoint".
Proof.
  intros Hp Hbad.
  destruct (validateURL endpoint) as [e|] eqn:E.
  - unfold validateURL in E. rewrite Hp in E. cbn [negb] in E.
    destruct (negb _); [now injection E as <- | discriminate].
  - apply validateURL_nil_iff in E as [_ E]. congruence.
Qed.

(** ** The client: single-record lookup *)

Section MoreClientFacts.

Variable To_LowerCase : Z -> Z.
Variable w : World.

(** X1: [fetchGameByID] refuses the empty identifier with "game ID cannot be
    empty", and a non-empty identifier with a byte outside [a-zA-Z0-9/_?=&-]
    with "invalid game ID: invalid characters in endpoint"; in both cases no
    network call is made, whatever the API key.  An identifier of allowed
    bytes passes the validation. *)
Theorem fetchGameByID_rejects_bad_id (id : string) (tr : Trace) :
  (id = "" ->
   fetchGameByID To_LowerCase w id tr = (Err "game ID cannot be empty", tr))
  /\ (id <> "" -> onlyAllowed id = false ->
      fetchGameByID To_LowerCase w id tr
      = (Err "invalid game ID: invalid characters in endpoint", tr))
  /\ (onlyAllowed id = true -> validateURL ("/games/" +:+ id) = None).
Proof.
  split; [|split].
  - intros ->. reflexivity.
  - intros Hid Hbad. unfold fetchGameByID.
    destruct (String.eqb_spec id ""); [congruence|].
    rewrite (validateURL_slash_invalid ("/games/" +:+ id)); [reflexivity | reflexivity |].
    unfold onlyAllowed in *. rewrite all_bytes_append, Hbad. apply andb_false_r.
  - apply validateURL_under_games.
Qed.

Lemma gameURL_eq (apiKey id : string) :
  baseAPIURL +:+ ("/games/" +:+ id) +:+ "?key=" +:+ apiKey = gameURL apiKey id.
Proof. unfold gameURL. now rewrite (append_assoc "/games/" id). Qed.


(** X3: [fetchGames] and [fetchGameByID] make at most one network call (no
    retry), and make it only when the endpoint has passed [validateURL] and
    the API key is not empty. *)
Theorem client_makes_at_most_one_call (tr : Trace) :
  (forall endpoint,
     snd (fetchGames To_LowerCase w endpoint tr) = tr
     \/ (validateURL endpoint = None /\ Getenv w "RAWG_API_KEY" <> ""
         /\ snd (fetchGames To_LowerCase w endpoint tr)
            = tr ++ [collectionURL (Getenv w "RAWG_API_KEY") endpoint]))
  /\ (forall id,
        snd (fetchGameByID To_LowerCase w id tr) = tr
        \/ (id <> "" /\ onlyAllowed id = true /\ Getenv w "RAWG_API_KEY" <> ""
            /\ snd (fetchGameByID To_LowerCase w id tr)
               = tr ++ [gameURL (Getenv w "RAWG_API_KEY") id])).
Proof.
  assert (Hreq : forall urlStr,
            snd (makeRequest w urlStr tr) = tr
            \/ snd (makeRequest w urlStr tr) = tr ++ [urlStr]).
  { intros urlStr. unfold makeRequest, Do.
    destruct (url_Parse w urlStr); [now left|].
    destruct (http_NewRequest w urlStr); [now left|].
    right. now destruct (client_Do w urlStr). }
  split.
  - intros endpoint. unfold fetchGames.
    destruct (validateURL endpoint); [now left|].
    destruct (String.eqb_spec (Getenv w "RAWG_API_KEY") ""); [now left|].
    rewrite bind_trace.
    + destruct (Hreq (collectionURL (Getenv w "RAWG_API_KEY") endpoint)) as [H|H];
        rewrite H; [now left | now right].
    + intros resp tr1. rewrite bind_trace; [apply wrap_trace|].
      intros body tr2. rewrite bind_trace; [apply wrap_trace|]. reflexivity.
  - intros id. unfold fetchGameByID.
    destruct (String.eqb_spec id ""); [now left|].
    destruct (validateURL ("/games/" +:+ id)) eqn:Hv; [now left|].
    apply validateURL_under_games in Hv.
    destruct (String.eqb_spec (Getenv w "RAWG_API_KEY") ""); [now left|].
    rewrite gameURL_eq. rewrite bind_trace.
    + destruct (Hreq (gameURL (Getenv w "RAWG_API_KEY") id)) as [H|H];
        rewrite H; [now left | now right].
    + intros resp tr1. rewrite bind_trace; [apply wrap_trace|].
      intros body tr2. rewrite bind_trace; [apply wrap_trace|]. reflexivity.
Qed.

Lemma toGames_map (results : list RAWGGame.t) :
  toGames To_LowerCase results = map (toGame To_LowerCase) results.
Proof. induction results as [|g l IH]; cbn; [reflexivity | now rewrite IH]. Qed.

(** X4: when the endpoint is valid, the key present, the URL well formed and
    the upstream body decodes to a page, [fetchGames] returns one record per
    result of the page, in the page's order, with the decimal form of the
    provider's identifier and the provider's name as title, after exactly
    one network call; the status of the response plays no part. *)
Theorem fetchGames_success (endpoint : string) (tr : Trace)
        (resp : HTTPResponse) (body : string) (page : RAWGResponse.t) :
  let apiKey := Getenv w "RAWG_API_KEY" in
  let urlStr := collectionURL apiKey endpoint in
  validateURL endpoint = None -> apiKey <> "" ->
  url_Parse w urlStr = None -> http_NewRequest w urlStr = None ->
  client_Do w urlStr = Ok resp ->
  ReadAll_Body resp = Ok body ->
  Unmarshal_RAWGResponse w body = Ok page ->
  exists games,
    fetchGames To_LowerCase w endpoint tr = (Ok games, tr ++ [urlStr])
    /\ length games = length (RAWGResponse.Results page)
    /\ map Game.ID games
       = map (fun g => itoa (RAWGGame.ID g)) (RAWGResponse.Results page)
    /\ map Game.Title games = map RAWGGame.Name (RAWGResponse.Results page).
Proof.
  intros apiKey urlStr Hv Hne Hp Hn Hdo Hb Hu.
  exists (toGames To_LowerCase (RAWGResponse.Results page)).
  split.
  - unfold fetchGames. rewrite Hv. fold apiKey.
    destruct (String.eqb_spec apiKey ""); [congruence|].
    fold urlStr. unfold bind, wrap, ret, fail, makeRequest, Do.
    rewrite Hp, Hn, Hdo, Hb, Hu. reflexivity.
  - rewrite toGames_map, length_map, !map_map. repeat split.
Qed.

(** X5: the client never reads the HTTP status of the upstream response:
    changing the status of every response changes nothing in what
    [fetchGames] and [fetchGameByID] return. *)
Theorem client_ignores_status (f : Z -> Z) (tr : Trace) :
  (forall endpoint,
     fetchGames To_LowerCase (withStatus f w) endpoint tr
     = fetchGames To_LowerCase w endpoint tr)
  /\ (forall id,
        fetchGameByID To_LowerCase (withStatus f w) id tr
        = fetchGameByID To_LowerCase w id tr).
Proof.
  split.
  - intros endpoint. unfold fetchGames. cbn [withStatus Getenv].
    destruct (validateURL endpoint); [reflexivity|].
    destruct (Getenv w "RAWG_API_KEY" =? "")%string; [reflexivity|].
    unfold bind, wrap, ret, fail, makeRequest, Do.
    cbn [withStatus url_Parse http_NewRequest client_Do Unmarshal_RAWGResponse].
    destruct (url_Parse w _); [reflexivity|].
    destruct (http_NewRequest w _); [reflexivity|].
    destruct (client_Do w _) as [resp|e]; reflexivity.
  - intros id. unfold fetchGameByID. cbn [withStatus Getenv].
    destruct (id =? "")%string; [reflexivity|].
    destruct (validateURL _); [reflexivity|].
    destruct (Getenv w "RAWG_API_KEY" =? "")%string; [reflexivity|].
    unfold bind, wrap, ret, fail, makeRequest, Do.
    cbn [withStatus url_Parse http_NewRequest client_Do Unmarshal_RAWGGame].
    destruct (url_Parse w _); [reflexivity|].
    destruct (http_NewRequest w _); [reflexivity|].
    destruct (client_Do w _) as [resp|e]; reflexivity.
Qed.

End MoreClientFacts.

(** ** The handlers *)

Section HandlerFacts.

Variable To_LowerCase : Z -> Z.
Variable w : World.

(** X6: the handlers do not pass the client's error on: whatever error
    [fetchGames] returns, a listing handler responds 500 with "Internal
    server error", and on success 200 with the records; whatever error
    [fetchGameByID] returns, [getGameByID] responds 500 with "Failed to fetch
    game", and on success 200 with the record. *)
Theorem handlers_hide_upstream_errors (c : Context) (tr : Trace) :
  (forall endpoint,
     match fetchGames To_LowerCase w endpoint tr with
     | (Ok games, _) =>
       fst (listing To_LowerCase w endpoint c tr) = mkResponse 200 (JSON_Games games)
     | (Err _, _) =>
       fst (listing To_LowerCase w endpoint c tr)
       = mkResponse 500 (H_error "Internal server error")
     end)
  /\ match fetchGameByID To_LowerCase w (Param c "id") tr with
     | (Ok (Some game), _) =>
       fst (getGameByID To_LowerCase w c tr) = mkResponse 200 (JSON_Game game)
     | (Ok None, _) => False
     | (Err _, _) =>
       fst (getGameByID To_LowerCase w c tr)
       = mkResponse 500 (H_error "Failed to fetch game")
     end.
Proof.
  split.
  - intros endpoint. unfold listing.
    destruct (fetchGames To_LowerCase w endpoint tr) as [[games|e] tr']; reflexivity.
  - pose proof (fetchGameByID_never_nil To_LowerCase w (Param c "id") tr) as Hnil.
    unfold getGameByID.
    destruct (fetchGameByID To_LowerCase w (Param c "id") tr) as [[[game|]|e] tr'];
      cbn [fst] in *; [reflexivity | congruence | reflexivity].
Qed.

(** X7: [getUpcomingGames] responds 500 "Internal server error" and makes
    no upstream call, in every environment: the endpoint it passes to
    [fetchGames] has a comma, which [validateURL] refuses.  The endpoints of
    the other four listing handlers pass the validation. *)
Theorem getUpcomingGames_always_fails (c : Context) (tr : Trace) :
  getUpcomingGames To_LowerCase w c tr
  = (mkResponse 500 (H_error "Internal server error"), tr)
  /\ validateURL "/games" = None
  /\ validateURL "/games?ordering=-released" = None
  /\ validateURL "/games?ordering=-rating" = None
  /\ validateURL "/games?ordering=-metacritic" = None.
Proof.
  split; [|repeat split; vm_compute; reflexivity].
  unfold getUpcomingGames, listing.
  rewrite (fetchGames_invalid To_LowerCase w _ "invalid characters in endpoint");
    [reflexivity | vm_compute; reflexivity].
Qed.

(** X8: [searchGames] puts the query into the endpoint as it is: a
    non-empty query with a byte outside [a-zA-Z0-9/_?=&-] (a space, for
    instance) gets 500 "Internal server error" and no upstream call; a query
    of allowed bytes gives an endpoint that passes the validation. *)
Theorem searchGames_query_not_escaped (c : Context) (tr : Trace) :
  (Query c "q" <> "" -> onlyAllowed (Query c "q") = false ->
   searchGames To_LowerCase w c tr
   = (mkResponse 500 (H_error "Internal server error"), tr))
  /\ (onlyAllowed (Query c "q") = true ->
      validateURL ("/games?search=" +:+ Query c "q") = None).
Proof.
  split; [|apply validateURL_under_search].
  intros Hq Hbad. unfold searchGames.
  destruct (String.eqb_spec (Query c "q") ""); [congruence|].
  rewrite (fetchGames_invalid To_LowerCase w _ "invalid characters in endpoint");
    [reflexivity|].
  apply validateURL_slash_invalid; [reflexivity|].
  unfold onlyAllowed in *. rewrite all_bytes_append, Hbad. apply andb_false_r.
Qed.

End HandlerFacts.

(** ** The normalizer *)

Lemma QueryEscape_cons (c : ascii) (t : string) :
  url.QueryEscape (String c t) = url.QueryEscape (String c "") +:+ url.QueryEscape t.
Proof.
  cbn [url.QueryEscape].
  destruct (Ascii.eqb c " "); [reflexivity|].
  destruct (url.shouldEscape c); reflexivity.
Qed.

Lemma QueryEscape_byte_safe (c : ascii) :
  all_bytes escapedChar (url.QueryEscape (String c "")) = true.
Proof. destruct c as [[] [] [] [] [] [] [] []]; vm_compute; reflexivity. Qed.

Lemma QueryEscape_safe (s : string) :
  all_bytes escapedChar (url.QueryEscape s) = true.
Proof.
  induction s as [|c t IH]; [reflexivity|].
  now rewrite QueryEscape_cons, all_bytes_append, QueryEscape_byte_safe, IH.
Qed.

Lemma escapedChar_urlChar (c : ascii) : escapedChar c = true -> urlChar c = true.
Proof. destruct c as [[] [] [] [] [] [] [] []]; vm_compute; congruence. Qed.

Lemma all_bytes_impl (p q : ascii -> bool) (s : string) :
  (forall c, p c = true -> q c = true) ->
  all_bytes p s = true -> all_bytes q s = true.
Proof.
  intros Hpq. induction s as [|c t IH]; [reflexivity|]. cbn [all_bytes].
  rewrite !andb_true_iff. intros [Hc Ht]. auto.
Qed.

Lemma unescape_QueryEscape_cons (c : ascii) (t : string) :
  unescape (url.QueryEscape (String c t)) = String c (unescape (url.QueryEscape t)).
Proof. destruct c as [[] [] [] [] [] [] [] []]; reflexivity. Qed.

Lemma unescape_QueryEscape (s : string) : unescape (url.QueryEscape s) = s.
Proof.
  induction s as [|c t IH]; [reflexivity|].
  now rewrite unescape_QueryEscape_cons, IH.
Qed.

Lemma append_inv_head (p a b : string) : p +:+ a = p +:+ b -> a = b.
Proof.
  induction p as [|x p IH]; [tauto|].
  change (String x p +:+ a) with (String x (p +:+ a)).
  change (String x p +:+ b) with (String x (p +:+ b)).
  intros [= H]. auto.
Qed.

Lemma append_inv_tail (a b q : string) : a +:+ q = b +:+ q -> a = b.
Proof.
  revert b. induction a as [|x a IH]; intros [|y b] H.
  - reflexivity.
  - change ("" +:+ q) with q in H.
    change (String y b +:+ q) with (String y (b +:+ q)) in H.
    apply (f_equal String.length) in H. cbn [String.length] in H.
    rewrite length_append in H. lia.
  - change ("" +:+ q) with q in H.
    change (String x a +:+ q) with (String x (a +:+ q)) in H.
    apply (f_equal String.length) in H. cbn [String.length] in H.
    rewrite length_append in H. lia.
  - change (String x a +:+ q) with (String x (a +:+ q)) in H.
    change (String y b +:+ q) with (String y (b +:+ q)) in H.
    injection H as -> H. f_equal. auto.
Qed.

Section MoreNormalizerFacts.

Variable To_LowerCase : Z -> Z.

(** X9: whatever bytes the store name and the game title hold, the URL
    [generateStoreURL] returns consists of ASCII letters, digits and the
    characters [- _ . ~ + % : / ? = &] only. *)
Theorem generateStoreURL_url_safe (storeName gameName : string) :
  all_bytes urlChar (generateStoreURL To_LowerCase storeName gameName) = true.
Proof.
  pose proof (all_bytes_impl _ _ _ escapedChar_urlChar (QueryEscape_safe gameName)) as He.
  unfold generateStoreURL.
  repeat match goal with
  | |- context [if ?b then _ else _] => destruct b
  end; rewrite !all_bytes_append, He; reflexivity.
Qed.

(** X10: two ASCII store names that differ only in the case of their
    letters give the same URL. *)
Theorem generateStoreURL_ignores_case (a b gameName : string) :
  isASCII a = true -> isASCII b = true -> equalFoldASCII a b = true ->
  generateStoreURL To_LowerCase a gameName = generateStoreURL To_LowerCase b gameName.
Proof.
  intros Ha Hb Hab. unfold generateStoreURL.
  rewrite (ToLower_ascii To_LowerCase a Ha), (ToLower_ascii To_LowerCase b Hb).
  rewrite <- map_bytes_lower_eq in Hab. apply String.eqb_eq in Hab.
  now rewrite Hab.
Qed.

(** X11: for a fixed store name, two game titles give the same URL only if
    they are the same title: the escaping loses nothing. *)
Theorem generateStoreURL_title_injective (storeName g1 g2 : string) :
  generateStoreURL To_LowerCase storeName g1 = generateStoreURL To_LowerCase storeName g2
  <-> g1 = g2.
Proof.
  split; [|now intros ->].
  intros H.
  rewrite <- (unescape_QueryEscape g1), <- (unescape_QueryEscape g2). f_equal.
  revert H. unfold generateStoreURL.
  repeat match goal with
  | |- context [if ?b then _ else _] => destruct b
  end; intros H; apply append_inv_head in H;
    try assumption; now apply append_inv_tail in H.
Qed.

(** X12: two provider records get the same [Game.ID] exactly when they
    have the same provider identifier. *)
Theorem toGame_ID_faithful (g1 g2 : RAWGGame.t) :
  Game.ID (toGame To_LowerCase g1) = Game.ID (toGame To_LowerCase g2)
  <-> RAWGGame.ID g1 = RAWGGame.ID g2.
Proof.
  cbn [toGame Game.ID]. unfold itoa. split; [|now intros ->].
  apply (inj pretty).
Qed.

End MoreNormalizerFacts.

(** ** The rate limiter and the chain *)

(** X13: a check of the rate limiter has two outcomes only.  Either the
    request is let through and the client's entry is now the time of the
    request; or it is refused with 429, the client had an entry, and the
    entry is unchanged. *)
Theorem rateLimiter_outcomes (l : gmap string Z) (now : Z) (c : Context) :
  (fst (rateLimiter l now c) = Next
   /\ snd (rateLimiter l now c) !! ClientIP c = Some now)
  \/ (fst (rateLimiter l now c) = tooMany
      /\ is_Some (l !! ClientIP c)
      /\ snd (rateLimiter l now c) !! ClientIP c = l !! ClientIP c).
Proof.
  destruct (fst (rateLimiter l now c)) as [|code obj] eqn:E.
  - left. split; [reflexivity|].
    rewrite (rateLimiter_passes l now c E). apply lookup_insert_eq.
  - right.
    destruct (rateLimiter_rejects l now c code obj E) as (-> & -> & Hs & t & Hp & _).
    pose proof (lookup_purge_Some now l _ t Hp) as Hl.
    split; [reflexivity|]. split; [rewrite Hl; eauto|].
    now rewrite Hs, Hp, Hl.
Qed.

(** X14: after a check at [now], the map holds, for every client other
    than the requesting one, exactly the entries it held before that are at
    most 60 seconds old, unchanged; and the requesting client's entry is at
    most 60 seconds old too.  No entry is created for another client. *)
Theorem rateLimiter_keeps_only_fresh (l : gmap string Z) (now : Z) (c : Context) :
  validClock now -> clocksValid l ->
  (forall k t, k <> ClientIP c ->
     snd (rateLimiter l now c) !! k = Some t
     <-> l !! k = Some t /\ now - t <= 60)
  /\ (forall t, snd (rateLimiter l now c) !! ClientIP c = Some t -> now - t <= 60).
Proof.
  intros Hnow Hl.
  assert (Hp : forall j u, purge now l !! j = Some u <-> l !! j = Some u /\ now - u <= 60).
  { intros j u. rewrite lookup_purge. split.
    - destruct (l !! j) as [v|] eqn:Hj; [|discriminate].
      rewrite (int64_sub now v Hnow (Hl _ _ Hj)).
      destruct (Z.ltb_spec 60 (now - v)); [discriminate|].
      intros [= ->]. split; [reflexivity | lia].
    - intros [Hj Hu]. rewrite Hj, (int64_sub now u Hnow (Hl _ _ Hj)).
      destruct (Z.ltb_spec 60 (now - u)); [lia | reflexivity]. }
  destruct (fst (rateLimiter l now c)) as [|code obj] eqn:E.
  - rewrite (rateLimiter_passes l now c E). split.
    + intros k t Hne. rewrite lookup_insert_ne by congruence. apply Hp.
    + intros t. rewrite lookup_insert_eq. intros [= <-]. lia.
  - destruct (rateLimiter_rejects l now c code obj E) as (_ & _ & -> & _).
    split.
    + intros k t _. apply Hp.
    + intros t Ht. now apply Hp in Ht.
Qed.

(** X15: the rate limiter runs before the input validator, so a request the
    validator refuses has used the client's slot: the response is the
    validator's, no upstream call is made, the client's entry is the time of
    the request, and another request of the client in the same second gets
    429. *)
Theorem invalid_input_uses_the_slot (h h' : Handler) (st : Server) (now : Z)
        (c : Context) (code : Z) (obj : JSON) :
  validClock now ->
  fst (rateLimiter (limiter st) now c) = Next ->
  validateInput c = AbortWithStatusJSON code obj ->
  fst (serve h st now c) = mkResponse code obj
  /\ trace (snd (serve h st now c)) = trace st
  /\ limiter (snd (serve h st now c)) !! ClientIP c = Some now
  /\ fst (serve h' (snd (serve h st now c)) now c)
     = mkResponse 429 (H_error "Too many requests").
Proof.
  intros Hnow Hr Hv.
  rewrite (serve_validateInput_abort h st now c code obj Hr Hv). cbn [fst snd trace limiter].
  assert (Hl : (<[ClientIP c := now]> (purge now (limiter st)) : gmap string Z)
               !! ClientIP c = Some now) by apply lookup_insert_eq.
  split; [reflexivity|]. split; [reflexivity|]. split; [assumption|].
  rewrite serve_rate_limited; [reflexivity|]. cbn [limiter].
  now destruct (rateLimiter_within_second _ now now c Hnow Hnow Hl ltac:(lia)) as [-> _].
Qed.

Lemma rateLimiter_keeps_current (l : gmap string Z) (now : Z) (c : Context)
      (ip : string) :
  validClock now -> l !! ip = Some now ->
  snd (rateLimiter l now c) !! ip = Some now.
Proof.
  intros Hnow Hl.
  assert (Hp : purge now l !! ip = Some now).
  { rewrite lookup_purge, Hl, (int64_sub now now Hnow Hnow).
    destruct (Z.ltb_spec 60 (now - now)); [lia | reflexivity]. }
  destruct (fst (rateLimiter l now c)) as [|code obj] eqn:E.
  - rewrite (rateLimiter_passes l now c E).
    destruct (decide (ClientIP c = ip)) as [<-|Hne].
    + apply lookup_insert_eq.
    + now rewrite lookup_insert_ne.
  - now destruct (rateLimiter_rejects l now c code obj E) as (_ & _ & -> & _).
Qed.

(** X16: once a request of a client has been let through at some clock
    second, every further request of that client in the same second is
    refused, however many requests of any clients come in between. *)
Theorem one_request_per_client_and_second (l : gmap string Z) (now : Z)
        (c c' : Context) (others : list Context) :
  validClock now ->
  fst (rateLimiter l now c) = Next ->
  ClientIP c' = ClientIP c ->
  fst (rateLimiter (runAt now (snd (rateLimiter l now c)) others) now c') = tooMany.
Proof.
  intros Hnow Hfirst Hip.
  assert (H1 : snd (rateLimiter l now c) !! ClientIP c' = Some now)
    by (rewrite Hip, (rateLimiter_passes l now c Hfirst); apply lookup_insert_eq).
  assert (Hrun : forall cs m, m !! ClientIP c' = Some now ->
                   runAt now m cs !! ClientIP c' = Some now).
  { induction cs as [|x cs IH]; intros m Hm; [assumption|].
    cbn [runAt]. apply IH. now apply rateLimiter_keeps_current. }
  specialize (Hrun others _ H1).
  now destruct (rateLimiter_within_second _ now now c' Hnow Hnow Hrun ltac:(lia))
    as [-> _].
Qed.

(** ** The first revision of the client *)

Lemma ContainsByte_eqb_literal (e lit : string) (ch : ascii) :
  ContainsByte e ch = true -> ContainsByte lit ch = false ->
  String.eqb e lit = false.
Proof.
  intros He Hl. destruct (String.eqb_spec e lit) as [->|]; congruence.
Qed.

(** X17: on the endpoints [/games], [/games/latest] and [/games/popular],
    and on every endpoint that contains [?] and does not end with it, the URL
    of the first revision is the URL of the current revision followed by the
    store filter. *)
Theorem legacy_URL_adds_store_filter (apiKey endpoint : string) :
  (endpoint = "/games" \/ endpoint = "/games/latest" \/ endpoint = "/games/popular"
   \/ (ContainsByte endpoint "?" = true
       /\ at_index endpoint (String.length endpoint - 1) <> rn "?")) ->
  Legacy.collectionURL apiKey endpoint = collectionURL apiKey endpoint +:+ storeFilter.
Proof.
  assert (Hjoin : forall sep,
            ("https://api.rawg.io/api" +:+ endpoint) +:+ sep +:+ apiKey
              +:+ "&page_size=20&stores=1,2,3,4,5,6,7,8,9,10,11"
            = ((baseAPIURL +:+ endpoint) +:+ sep +:+ apiKey +:+ "&page_size=20")
              +:+ storeFilter).
  { intros sep. unfold storeFilter, baseAPIURL. now rewrite !append_assoc. }
  intros [->|[->|[->|[Hq Hlast]]]]; try apply (Hjoin "?key=").
  unfold Legacy.collectionURL, collectionURL. rewrite Hq.
  rewrite !(ContainsByte_eqb_literal endpoint _ "?" Hq) by reflexivity.
  cbn [orb].
  destruct (Z.eqb_spec (at_index endpoint (String.length endpoint - 1)) (rn "?"));
    [contradiction|].
  apply (Hjoin "&key=").
Qed.

(** ** Instances of the further properties *)

(** X1 at the empty identifier, at [12;drop] and at [3498]. *)
Lemma fetchGameByID_rejects_bad_id_witness :
  fetchGameByID noCaseTable notFoundWorld "" [] = (Err "game ID cannot be empty", [])
  /\ fetchGameByID noCaseTable notFoundWorld "12;drop" []
     = (Err "invalid game ID: invalid characters in endpoint", [])
  /\ validateURL ("/games/" +:+ "3498") = None.
Proof.
  split; [|split].
  - destruct (fetchGameByID_rejects_bad_id noCaseTable notFoundWorld "" []) as (H & _).
    apply H. reflexivity.
  - destruct (fetchGameByID_rejects_bad_id noCaseTable notFoundWorld "12;drop" [])
      as (_ & H & _).
    apply H; [discriminate | vm_compute; reflexivity].
  - destruct (fetchGameByID_rejects_bad_id noCaseTable notFoundWorld "3498" [])
      as (_ & _ & H).
    apply H. vm_compute. reflexivity.
Defined.


(** X4 at [/games?ordering=-rating], the upstream answering a page of two
    records with status 500. *)
Lemma fetchGames_success_witness :
  exists games,
    fetchGames noCaseTable pageWorld "/games?ordering=-rating" []
    = (Ok games, [] ++ [collectionURL "secret" "/games?ordering=-rating"])
    /\ length games = 2%nat
    /\ map Game.ID games = ["620"; "0"]
    /\ map Game.Title games = ["Portal 2"; ""].
Proof.
  assert (Hv : validateURL "/games?ordering=-rating" = None)
    by (vm_compute; reflexivity).
  assert (Hne : Getenv pageWorld "RAWG_API_KEY" <> "") by discriminate.
  destruct (fetchGames_success noCaseTable pageWorld "/games?ordering=-rating" []
              (mkHTTPResponse 500 (Ok "{}")) "{}" samplePage
              Hv Hne eq_refl eq_refl eq_refl eq_refl eq_refl)
    as (games & H1 & H2 & H3 & H4).
  exists games. split; [exact H1|]. split; [exact H2|]. split; [exact H3 | exact H4].
Defined.

(** X8 at the query [half life], and at the query [zelda]. *)
Lemma searchGames_query_not_escaped_witness :
  searchGames noCaseTable pageWorld searchHalfLife []
  = (mkResponse 500 (H_error "Internal server error"), [])
  /\ validateURL ("/games?search=" +:+ Query (plainGET {["q" := ["zelda"]]}) "q") = None.
Proof.
  split.
  - destruct (searchGames_query_not_escaped noCaseTable pageWorld searchHalfLife [])
      as [H _].
    apply H; [intros Hq; vm_compute in Hq; discriminate Hq | vm_compute; reflexivity].
  - destruct (searchGames_query_not_escaped noCaseTable pageWorld
                (plainGET {["q" := ["zelda"]]}) []) as [_ H].
    apply H. vm_compute. reflexivity.
Defined.

(** X10 at two spellings of Epic Games. *)
Lemma generateStoreURL_ignores_case_witness :
  generateStoreURL noCaseTable "ePiC gAmEs" "Alan Wake"
  = generateStoreURL noCaseTable "Epic Games" "Alan Wake".
Proof.
  apply (generateStoreURL_ignores_case noCaseTable "ePiC gAmEs" "Epic Games" "Alan Wake");
    vm_compute; reflexivity.
Defined.

(** X14: a check at second 1001 keeps the other client's entry of second 990. *)
Lemma rateLimiter_keeps_only_fresh_witness :
  snd (rateLimiter (<["198.51.100.2" := 990]> oneClient) 1001 (plainGET ∅))
    !! "198.51.100.2" = Some 990
  /\ 1001 - 1001 <= 60.
Proof.
  assert (H1001 : validClock 1001) by (apply validClock_small; lia).
  assert (H990 : validClock 990) by (apply validClock_small; lia).
  destruct (rateLimiter_keeps_only_fresh (<["198.51.100.2" := 990]> oneClient) 1001
              (plainGET ∅) H1001
              (clocksValid_insert _ _ _ H990 clocksValid_oneClient)) as [Ha Hb].
  split.
  - apply (Ha "198.51.100.2" 990); [discriminate|].
    split; [reflexivity | lia].
  - apply (Hb 1001). vm_compute. reflexivity.
Defined.

(** X15 at a first request with a parameter named [a<b]. *)
Lemma invalid_input_uses_the_slot_witness :
  fst (serve (getGames noCaseTable pageWorld) (mkServer ∅ []) 1000 badNameGET)
  = mkResponse 400 (H_error "Invalid characters in parameters")
  /\ trace (snd (serve (getGames noCaseTable pageWorld) (mkServer ∅ []) 1000 badNameGET))
     = trace (mkServer ∅ [])
  /\ limiter (snd (serve (getGames noCaseTable pageWorld) (mkServer ∅ []) 1000 badNameGET))
       !! ClientIP badNameGET = Some 1000
  /\ fst (serve (getGames noCaseTable pageWorld)
            (snd (serve (getGames noCaseTable pageWorld) (mkServer ∅ []) 1000 badNameGET))
            1000 badNameGET)
     = mkResponse 429 (H_error "Too many requests").
Proof.
  apply (invalid_input_uses_the_slot (getGames noCaseTable pageWorld)
           (getGames noCaseTable pageWorld) (mkServer ∅ []) 1000 badNameGET).
  - apply validClock_small. lia.
  - reflexivity.
  - vm_compute. reflexivity.
Defined.

(** X16 with three requests in between, one of them of the same client. *)
Lemma one_request_per_client_and_second_witness :
  fst (rateLimiter
         (runAt 1000 (snd (rateLimiter ∅ 1000 (plainGET ∅)))
            [otherGET; plainGET ∅; otherGET])
         1000 (plainGET ∅)) = tooMany.
Proof.
  apply (one_request_per_client_and_second ∅ 1000 (plainGET ∅) (plainGET ∅)
           [otherGET; plainGET ∅; otherGET]).
  - apply validClock_small. lia.
  - reflexivity.
  - reflexivity.
Defined.

(** X17 at [/games?ordering=-rating] and at [/games/latest]. *)
Lemma legacy_URL_adds_store_filter_witness :
  Legacy.collectionURL "secret" "/games?ordering=-rating"
  = collectionURL "secret" "/games?ordering=-rating" +:+ storeFilter
  /\ Legacy.collectionURL "secret" "/games/latest"
     = collectionURL "secret" "/games/latest" +:+ storeFilter.
Proof.
  split.
  - apply (legacy_URL_adds_store_filter "secret" "/games?ordering=-rating").
    right. right. right. split; [reflexivity | vm_compute; discriminate].
  - apply (legacy_URL_adds_store_filter "secret" "/games/latest").
    right. left. reflexivity.
Defined.

(** ** Errors and network use *)

Section ErrorFacts.

Variable To_LowerCase : Z -> Z.
Variable w : World.

Lemma HasPrefix_append (p e : string) : HasPrefix (p +:+ e) p = true.
Proof.
  unfold HasPrefix. induction p as [|a p IH]; [now destruct e|].
  change (String a p +:+ e) with (String a (p +:+ e)). cbn [String.prefix].
  destruct (ascii_dec a a); [assumption | contradiction].
Qed.

Lemma isUpstreamError_making (e : error) :
  isUpstreamError ("error making request: " +:+ e) = true.
Proof. unfold isUpstreamError. now rewrite HasPrefix_append. Qed.

Lemma isUpstreamError_reading (e : error) :
  isUpstreamError ("error reading response: " +:+ e) = true.
Proof.
  unfold isUpstreamError. rewrite (HasPrefix_append "error reading response: ").
  apply orb_true_iff. left. apply orb_true_r.
Qed.

Lemma isUpstreamError_parsing (e : error) :
  isUpstreamError ("error parsing response: " +:+ e) = true.
Proof.
  unfold isUpstreamError. rewrite (HasPrefix_append "error parsing response: ").
  apply orb_true_r.
Qed.

(** [makeRequest] either fails before the network is used, with an error
    that is not an upstream error, or uses it once. *)
Lemma makeRequest_cases (urlStr : string) (tr : Trace) :
  (exists e, makeRequest w urlStr tr = (Err e, tr) /\ isUpstreamError e = false)
  \/ (exists e, makeRequest w urlStr tr = (Err e, tr ++ [urlStr])
                /\ isUpstreamError e = true)
  \/ (exists resp, makeRequest w urlStr tr = (Ok resp, tr ++ [urlStr])).
Proof.
  unfold makeRequest, Do.
  destruct (url_Parse w urlStr) as [e|].
  { left. eexists. split; reflexivity. }
  destruct (http_NewRequest w urlStr) as [e|].
  { left. eexists. split; reflexivity. }
  destruct (client_Do w urlStr) as [resp|e].
  - right. right. eexists. reflexivity.
  - right. left. eexists. split; [reflexivity | apply isUpstreamError_making].
Qed.

(** X18: when [fetchGames] fails, its error message tells whether the
    upstream was contacted.  An error that does not start with one of the
    three prefixes "error making request: ", "error reading response: ",
    "error parsing response: " was raised before any network call (the
    trace is unchanged); an error with one of them was raised after exactly
    one call, to the collection URL of the endpoint. *)
Theorem fetchGames_error_tells_network_use (endpoint : string) (tr : Trace) (e : error) :
  fst (fetchGames To_LowerCase w endpoint tr) = Err e ->
  (isUpstreamError e = false /\ snd (fetchGames To_LowerCase w endpoint tr) = tr)
  \/ (isUpstreamError e = true
      /\ snd (fetchGames To_LowerCase w endpoint tr)
         = tr ++ [collectionURL (Getenv w "RAWG_API_KEY") endpoint]).
Proof.
  unfold fetchGames.
  destruct (validateURL endpoint) as [err|].
  { intros [= <-]. left. split; reflexivity. }
  destruct (Getenv w "RAWG_API_KEY" =? "")%string.
  { intros [= <-]. left. split; reflexivity. }
  unfold bind, wrap, ret, fail.
  destruct (makeRequest_cases (collectionURL (Getenv w "RAWG_API_KEY") endpoint) tr)
    as [(e0 & -> & He)|[(e0 & -> & He)|(resp & ->)]].
  - intros [= <-]. now left.
  - intros [= <-]. now right.
  - destruct (ReadAll_Body resp) as [body|e1].
    + destruct (Unmarshal_RAWGResponse w body) as [page|e2].
      * discriminate.
      * intros [= <-]. right. split; [apply isUpstreamError_parsing | reflexivity].
    + intros [= <-]. right. split; [apply isUpstreamError_reading | reflexivity].
Qed.

Lemma fetchGames_trace_grows (endpoint : string) (tr : Trace) :
  exists urls, snd (fetchGames To_LowerCase w endpoint tr) = tr ++ urls
               /\ (length urls <= 1)%nat.
Proof.
  unfold fetchGames, bind, wrap, ret, fail.
  destruct (validateURL endpoint);
    [exists []; split; [symmetry; apply app_nil_r | cbn; lia]|].
  destruct (Getenv w "RAWG_API_KEY" =? "")%string;
    [exists []; split; [symmetry; apply app_nil_r | cbn; lia]|].
  destruct (makeRequest_cases (collectionURL (Getenv w "RAWG_API_KEY") endpoint) tr)
    as [(e0 & -> & _)|[(e0 & -> & _)|(resp & ->)]].
  - exists []. split; [symmetry; apply app_nil_r | cbn; lia].
  - eexists. split; [reflexivity | cbn; lia].
  - exists [collectionURL (Getenv w "RAWG_API_KEY") endpoint]. split; [|cbn; lia].
    destruct (ReadAll_Body resp) as [body|e1]; [|reflexivity].
    destruct (Unmarshal_RAWGResponse w body); reflexivity.
Qed.

Lemma fetchGameByID_trace_grows (id : string) (tr : Trace) :
  exists urls, snd (fetchGameByID To_LowerCase w id tr) = tr ++ urls
               /\ (length urls <= 1)%nat.
Proof.
  unfold fetchGameByID, bind, wrap, ret, fail.
  destruct (id =? "")%string;
    [exists []; split; [symmetry; apply app_nil_r | cbn; lia]|].
  destruct (validateURL _);
    [exists []; split; [symmetry; apply app_nil_r | cbn; lia]|].
  destruct (Getenv w "RAWG_API_KEY" =? "")%string;
    [exists []; split; [symmetry; apply app_nil_r | cbn; lia]|].
  match goal with |- context [makeRequest w ?u tr] =>
    destruct (makeRequest_cases u tr)
      as [(e0 & -> & _)|[(e0 & -> & _)|(resp & ->)]]; [| |exists [u]] end.
  - exists []. split; [symmetry; apply app_nil_r | cbn; lia].
  - eexists. split; [reflexivity | cbn; lia].
  - split; [|cbn; lia].
    destruct (ReadAll_Body resp) as [body|e1]; [|reflexivity].
    destruct (Unmarshal_RAWGGame w body); reflexivity.
Qed.

Lemma handler_trace_grows (h : Handler) (c : Context) (tr : Trace) :
  In h (routeHandlers To_LowerCase w) ->
  exists urls, snd (h c tr) = tr ++ urls /\ (length urls <= 1)%nat.
Proof.
  assert (Hl : forall endpoint,
            exists urls, snd (listing To_LowerCase w endpoint c tr) = tr ++ urls
                         /\ (length urls <= 1)%nat).
  { intros endpoint. unfold listing.
    destruct (fetchGames_trace_grows endpoint tr) as (urls & H & Hn).
    exists urls. split; [|assumption].
    now destruct (fetchGames To_LowerCase w endpoint tr). }
  intros [<-|[<-|[<-|[<-|[<-|[<-|[<-|[]]]]]]]]; try apply Hl.
  - unfold searchGames.
    destruct (Query c "q" =? "")%string;
      [exists []; split; [symmetry; apply app_nil_r | cbn; lia]|].
    destruct (fetchGames_trace_grows ("/games?search=" +:+ Query c "q") tr)
      as (urls & H & Hn).
    exists urls. split; [|assumption].
    now destruct (fetchGames To_LowerCase w _ tr).
  - unfold getGameByID.
    destruct (fetchGameByID_trace_grows (Param c "id") tr) as (urls & H & Hn).
    exists urls. split; [|assumption].
    now destruct (fetchGameByID To_LowerCase w _ tr) as [[[g|]|e] tr'].
Qed.

(** X19: through the whole middleware chain, each of the seven route
    handlers sends at most one request upstream per inbound request, and
    never removes a call from the trace. *)
Theorem one_upstream_call_per_request (h : Handler) (st : Server) (now : Z)
        (c : Context) :
  In h (routeHandlers To_LowerCase w) ->
  exists urls, trace (snd (serve h st now c)) = trace st ++ urls
               /\ (length urls <= 1)%nat.
Proof.
  intros Hh. unfold serve.
  destruct (rateLimiter (limiter st) now c) as [[|code obj] l'].
  - destruct (validateInput c) as [|code obj].
    + destruct (handler_trace_grows h c (trace st) Hh) as (urls & H & Hn).
      exists urls. split; [|assumption].
      now destruct (h c (trace st)).
    + exists []. split; [symmetry; apply app_nil_r | cbn; lia].
  - exists []. split; [symmetry; apply app_nil_r | cbn; lia].
Qed.

End ErrorFacts.

(** X18 on an endpoint without leading slash: the error is local and the
    trace stays empty. *)
Lemma fetchGames_error_tells_network_use_witness :
  (isUpstreamError "invalid endpoint: endpoint must start with /" = false
   /\ snd (fetchGames noCaseTable pageWorld "games" []) = [])
  \/ (isUpstreamError "invalid endpoint: endpoint must start with /" = true
      /\ snd (fetchGames noCaseTable pageWorld "games" [])
         = [] ++ [collectionURL (Getenv pageWorld "RAWG_API_KEY") "games"]).
Proof.
  apply (fetchGames_error_tells_network_use noCaseTable pageWorld "games" []).
  vm_compute. reflexivity.
Defined.

(** X19 for a search through the whole chain. *)
Lemma one_upstream_call_per_request_witness :
  exists urls,
    trace (snd (serve (searchGames noCaseTable pageWorld) (mkServer ∅ []) 1000
                  (plainGET {["q" := ["zelda"]]})))
    = trace (mkServer ∅ []) ++ urls
    /\ (length urls <= 1)%nat.
Proof.
  apply (one_upstream_call_per_request noCaseTable pageWorld
           (searchGames noCaseTable pageWorld)).
  cbn [routeHandlers In]. tauto.
Defined.
